(** * MultiLogger: a shallow embedding of [lib/MultiLogger/Log.h] and
    [lib/MultiLogger/Log.cpp], and the properties of the ordering / dispatch
    engine.

    The logger is concurrent: callers run [Logger::Impl::log], every accepted
    call starts a detached thread that formats the line and pushes it into
    the priority queue, one worker thread ([_logger]) drains the queue, and
    the destructor stops the worker.  The embedding is an interleaving
    semantics: [exec] performs one atomic section of one thread (a section is
    what runs under one mutex, or a thread-local stretch of code), and a
    schedule is a list of such actions.  Everything is executable, so a
    schedule can be evaluated. *)

From Stdlib Require Import ZArith List String Ascii Bool Lia DecimalString Sorted.
Import ListNotations.

Open Scope string_scope.
Open Scope Z_scope.

(** ** Errors *)

(** [std::runtime_error], with its [what()] text. *)
Inductive exception : Type :=
| runtime_error (what : string).

(** A computation that returns or throws. *)
Inductive result (A : Type) : Type :=
| Ok (a : A)
| Throw (e : exception).
Arguments Ok {A} a.
Arguments Throw {A} e.

Definition bind {A B : Type} (r : result A) (k : A -> result B) : result B :=
  match r with
  | Ok a => k a
  | Throw e => Throw e
  end.

Notation "x <- r ;; k" := (bind r (fun x => k))
  (at level 61, r at next level, right associativity).

(** ** Log.h: Priority *)

(** [enum class Priority]: the underlying type is [int], and every [int] is a
    value of the enumeration (the tester builds priorities with
    [static_cast]); the enumerators are the values 0 to 5. *)
Record Priority : Type := mkPriority { underlying : Z }.

Definition Debug : Priority := mkPriority 0.
Definition Info : Priority := mkPriority 1.
Definition Warning : Priority := mkPriority 2.
Definition Error : Priority := mkPriority 3.
Definition Critical : Priority := mkPriority 4.
Definition __Size : Priority := mkPriority 5.

(** The built-in [<] of the enumeration. *)
Definition pri_lt (a b : Priority) : bool := underlying a <? underlying b.

(** An output stream, as the text inserted so far. *)
Definition Ostream : Type := string.

(** [operator<<(Ostream&, const Priority)]: the [switch] over the five named
    enumerators, and the [throw] after it. *)
Definition put_Priority (lhs_ : Ostream) (rhs_ : Priority) : result Ostream :=
  match underlying rhs_ with
  | 0 => Ok (lhs_ ++ "Debug")
  | 1 => Ok (lhs_ ++ "Info")
  | 2 => Ok (lhs_ ++ "Warning")
  | 3 => Ok (lhs_ ++ "Error")
  | 4 => Ok (lhs_ ++ "Critical")
  | _ => Throw (runtime_error "unknown priority!")
  end.

(** ** Log.h / Log.cpp: destinations *)

(** The three classes derived from [LogDest].  What the engine does with a
    destination is call [write] and [flush] on it; those calls are recorded
    as events below. *)
Inductive LogDest : Type :=
| FileDest (fname_ : string)
| StdOutDest
| StdErrDest.

(** [LogDest::ptr_t] is a [std::unique_ptr<LogDest>]: it may be null. *)
Definition ptr_t : Type := option LogDest.

Section FileSystem.
(** Whether [std::fstream{fname_, std::ios_base::out}] opens. *)
Variable opens : string -> bool.

(** [FileDest::FileDest]: throws when the stream is not good. *)
Definition FileDest_ctor (fname_ : string) : result LogDest :=
  if opens fname_ then Ok (FileDest fname_)
  else Throw (runtime_error ("cannot open file " ++ fname_ ++ " for logging!")).
End FileSystem.

(** [struct LogTarget]. *)
Record LogTarget : Type := mkLogTarget {
  _name : string;
  _dest : ptr_t;
  _threshold : Priority;
  _enabled : bool
}.

Definition has_dest (target : LogTarget) : bool :=
  match _dest target with Some _ => true | None => false end.

(** ** Time stamps and the formatted line *)

(** [std::chrono::system_clock::time_point]: nanoseconds since the epoch. *)
Definition time_point_t : Type := Z.

(** The fields of [struct tm] that ["%b %e %T"] reads. *)
Record tm : Type := mkTm {
  tm_sec : Z;
  tm_min : Z;
  tm_hour : Z;
  tm_mday : Z;
  tm_mon : Z;
  tm_year : Z
}.

Definition INT_MAX : Z := 2147483647.
Definition INT_MIN : Z := -2147483648.

(** [gmtime_r] of the C library: the proleptic Gregorian calendar date of a
    count of seconds since the epoch; null when the year does not fit
    [tm_year]. *)
Definition gmtime_r (time : Z) : option tm :=
  let days := time / 86400 in
  let secs := time mod 86400 in
  let z := days + 719468 in
  let era := z / 146097 in
  let doe := z - era * 146097 in
  let yoe := (doe - doe / 1460 + doe / 36524 - doe / 146096) / 365 in
  let doy := doe - (365 * yoe + yoe / 4 - yoe / 100) in
  let mp := (5 * doy + 2) / 153 in
  let d := doy - (153 * mp + 2) / 5 + 1 in
  let m := if mp <? 10 then mp + 3 else mp - 9 in
  let y := yoe + era * 400 + (if m <=? 2 then 1 else 0) in
  if (INT_MIN <=? y - 1900) && (y - 1900 <=? INT_MAX) then
    Some (mkTm (secs mod 60) ((secs / 60) mod 60) (secs / 3600) d (m - 1) (y - 1900))
  else None.

Definition show_Z (n : Z) : string := NilZero.string_of_int (Z.to_int n).

Definition two_digits (pad : string) (n : Z) : string :=
  if n <? 10 then pad ++ show_Z n else show_Z n.

Definition month_abbrev (mon : Z) : string :=
  match mon with
  | 0 => "Jan" | 1 => "Feb" | 2 => "Mar" | 3 => "Apr"
  | 4 => "May" | 5 => "Jun" | 6 => "Jul" | 7 => "Aug"
  | 8 => "Sep" | 9 => "Oct" | 10 => "Nov" | _ => "Dec"
  end.

(** [std::put_time(&tm, "%b %e %T")] in the classic locale. *)
Definition put_time (t : tm) : string :=
  month_abbrev (tm_mon t) ++ " " ++ two_digits " " (tm_mday t) ++ " "
  ++ two_digits "0" (tm_hour t) ++ ":" ++ two_digits "0" (tm_min t) ++ ":"
  ++ two_digits "0" (tm_sec t).

(** [std::thread::id], as the number its [operator<<] prints. *)
Definition thread_id : Type := Z.

Definition newline : string := String (ascii_of_nat 10) EmptyString.

(** The arguments of one [Logger::Impl::log] call together with the time
    stamp the call takes: what the lambda of the detached thread captures. *)
Record LogCall : Type := mkLogCall {
  now : time_point_t;
  message_ : string;
  pri_ : Priority;
  function_ : string;
  file_ : string;
  line_ : Z;
  threadId_ : thread_id
}.

(** The body of the lambda, up to the formatted text: it reads [_category]
    when it runs.  [duration_cast] truncates towards zero. *)
Definition format (category : string) (c : LogCall) : result string :=
  let time := Z.quot (now c) 1000000000 in
  match gmtime_r time with
  | None => Throw (runtime_error "cannot get time for logging!")
  | Some t =>
      let total_nanos := now c in
      let total_seconds_in_nanos := Z.quot (now c) 1000000000 * 1000 * 1000 * 1000 in
      let nanos := total_nanos - total_seconds_in_nanos in
      let formattedMsg : Ostream :=
        put_time t ++ "." ++ show_Z nanos ++ " " ++ show_Z (threadId_ c) ++ " "
        ++ category ++ " " ++ function_ c ++ " " in
      formattedMsg <- put_Priority formattedMsg (pri_ c) ;;
      Ok (formattedMsg ++ ": " ++ message_ c ++ " (" ++ file_ c ++ ":"
          ++ show_Z (line_ c) ++ ")" ++ newline)
  end.

(** ** Log.cpp: the priority queue *)

(** [queue_element_t]: the time stamp, then the priority and the formatted
    line. *)
Definition queue_element_t : Type := (time_point_t * (Priority * string))%type.

(** [operator<] of [std::pair], on the inner and on the outer pair. *)
Definition inner_lt (a b : Priority * string) : bool :=
  pri_lt (fst a) (fst b)
  || (negb (pri_lt (fst b) (fst a)) && String.ltb (snd a) (snd b)).

Definition element_lt (a b : queue_element_t) : bool :=
  (fst a <? fst b) || (negb (fst b <? fst a) && inner_lt (snd a) (snd b)).

(** [priority_queue_t]: a [std::priority_queue] under [std::greater], so
    [top] is a least element.  The heap is kept as the list of its elements
    in the order [top]/[pop] give them out. *)
Definition priority_queue_t : Type := list queue_element_t.

Fixpoint push (e : queue_element_t) (q : priority_queue_t) : priority_queue_t :=
  match q with
  | [] => [e]
  | x :: rest => if element_lt e x then e :: x :: rest else x :: push e rest
  end.

Definition empty (q : priority_queue_t) : bool :=
  match q with [] => true | _ :: _ => false end.

(** ** Log.cpp: Logger::Impl *)

(** [verif_cb_t]: a [std::function], empty or holding a callback.  A callback
    is named by a number; calling it is recorded as an event. *)
Definition verif_cb_t : Type := option nat.

(** The worker thread [_logger], by the place it has reached in its loop. *)
Inductive Worker : Type :=
| AtLoopHead                                   (* about to lock [_writeMutex] *)
| Waiting                                      (* inside [wait_for], mutex released *)
| Dispatching (localQueue : priority_queue_t)  (* holds [_destMutex] *)
| Exited.                                      (* left the loop by [break] *)

Definition SIZE_MAX_succ : Z := 2 ^ 64.

Record Impl : Type := mkImpl {
  _category : string;
  _globalThreshold : Priority;
  _dests : list LogTarget;
  _queue : priority_queue_t;
  _logger : Worker;
  _log : bool;
  _errorThreshold : Priority;
  _requestedErrors : Z;
  _verifCB : verif_cb_t
}.

(** [Logger::Impl::Impl]: the member initialisers; the worker is started. *)
Definition Impl_ctor (globalThreshold_ : Priority) (category_ : string) : Impl :=
  {| _category := category_;
     _globalThreshold := globalThreshold_;
     _dests := [];
     _queue := [];
     _logger := AtLoopHead;
     _log := true;
     _errorThreshold := Error;
     _requestedErrors := 0;
     _verifCB := None |}.

(** [Logger::Logger], with its default arguments when one is left out. *)
Definition Logger_ctor (globalThreshold_ : option Priority) (category_ : option string) : Impl :=
  Impl_ctor
    (match globalThreshold_ with Some p => p | None => Info end)
    (match category_ with Some c => c | None => "global" end).

Definition set_category (v : string) (i : Impl) : Impl :=
  mkImpl v (_globalThreshold i) (_dests i) (_queue i) (_logger i) (_log i)
         (_errorThreshold i) (_requestedErrors i) (_verifCB i).
Definition set_globalThreshold (v : Priority) (i : Impl) : Impl :=
  mkImpl (_category i) v (_dests i) (_queue i) (_logger i) (_log i)
         (_errorThreshold i) (_requestedErrors i) (_verifCB i).
Definition set_dests (v : list LogTarget) (i : Impl) : Impl :=
  mkImpl (_category i) (_globalThreshold i) v (_queue i) (_logger i) (_log i)
         (_errorThreshold i) (_requestedErrors i) (_verifCB i).
Definition set_queue (v : priority_queue_t) (i : Impl) : Impl :=
  mkImpl (_category i) (_globalThreshold i) (_dests i) v (_logger i) (_log i)
         (_errorThreshold i) (_requestedErrors i) (_verifCB i).
Definition set_logger (v : Worker) (i : Impl) : Impl :=
  mkImpl (_category i) (_globalThreshold i) (_dests i) (_queue i) v (_log i)
         (_errorThreshold i) (_requestedErrors i) (_verifCB i).
Definition set_log (v : bool) (i : Impl) : Impl :=
  mkImpl (_category i) (_globalThreshold i) (_dests i) (_queue i) (_logger i) v
         (_errorThreshold i) (_requestedErrors i) (_verifCB i).
Definition set_errorThreshold (v : Priority) (i : Impl) : Impl :=
  mkImpl (_category i) (_globalThreshold i) (_dests i) (_queue i) (_logger i) (_log i)
         v (_requestedErrors i) (_verifCB i).
Definition set_requestedErrors (v : Z) (i : Impl) : Impl :=
  mkImpl (_category i) (_globalThreshold i) (_dests i) (_queue i) (_logger i) (_log i)
         (_errorThreshold i) v (_verifCB i).
Definition set_verifCB (v : verif_cb_t) (i : Impl) : Impl :=
  mkImpl (_category i) (_globalThreshold i) (_dests i) (_queue i) (_logger i) (_log i)
         (_errorThreshold i) (_requestedErrors i) v.

(** *** The registry *)

(** [std::find_if] with the name predicate, followed by the assignment
    through the iterator: the first entry of that name is changed, if any. *)
Fixpoint update_first (name_ : string) (f : LogTarget -> LogTarget)
    (dests : list LogTarget) : list LogTarget :=
  match dests with
  | [] => []
  | target :: rest =>
      if String.eqb name_ (_name target) then f target :: rest
      else target :: update_first name_ f rest
  end.

Definition with_enabled (enable_ : bool) (t : LogTarget) : LogTarget :=
  mkLogTarget (_name t) (_dest t) (_threshold t) enable_.

Definition with_threshold (threshold_ : Priority) (t : LogTarget) : LogTarget :=
  mkLogTarget (_name t) (_dest t) threshold_ (_enabled t).

(** [addDest(name_, dest_)]. *)
Definition addDest (name_ : string) (dest_ : ptr_t) (i : Impl) : Impl :=
  set_dests (_dests i ++ [mkLogTarget name_ dest_ (_globalThreshold i) true]) i.

(** [addDest(name_, thresHold_, dest_)]. *)
Definition addDest_threshold (name_ : string) (thresHold_ : Priority) (dest_ : ptr_t)
    (i : Impl) : Impl :=
  set_dests (_dests i ++ [mkLogTarget name_ dest_ thresHold_ true]) i.

(** [permitDest]. *)
Definition permitDest (name_ : string) (enable_ : bool) (i : Impl) : Impl :=
  set_dests (update_first name_ (with_enabled enable_) (_dests i)) i.

(** [threshold(destName_, threshold_)]. *)
Definition threshold_dest (destName_ : string) (threshold_ : Priority) (i : Impl) : Impl :=
  set_dests (update_first destName_ (with_threshold threshold_) (_dests i)) i.

(** [logging(pri_)]. *)
Definition logging_pri (pri_ : Priority) (i : Impl) : bool :=
  negb (pri_lt pri_ (_globalThreshold i)).

(** [logging(destName_)]: [find_if], then the flag of the entry found. *)
Fixpoint find_if (destName_ : string) (dests : list LogTarget) : option LogTarget :=
  match dests with
  | [] => None
  | target :: rest =>
      if String.eqb destName_ (_name target) then Some target
      else find_if destName_ rest
  end.

Definition logging (destName_ : string) (i : Impl) : bool :=
  match find_if destName_ (_dests i) with
  | None => false
  | Some cit => _enabled cit
  end.

(** The call site of the tests and of the tester,
    [log.addDest(name_, make_unique<FileDest>(fname_))]: the argument is
    built first; when its constructor throws, [addDest] is not entered. *)
Definition addDest_FileDest (opens : string -> bool) (name_ fname_ : string)
    (i : Impl) : Impl * result unit :=
  match FileDest_ctor opens fname_ with
  | Ok d => (addDest name_ (Some d) i, Ok tt)
  | Throw e => (i, Throw e)
  end.

(** ** The running system *)

(** What the engine does to the outside, and the pops of the worker, in the
    order they happen.  A destination is named by its index in [_dests]
    (entries are only ever appended). *)
Inductive Event : Type :=
| Popped (msg : queue_element_t)           (* [localQueue.top()] and [pop()] *)
| Write (target : nat) (line : string)     (* [target._dest->write(line)] *)
| Flush (target : nat)                     (* [target._dest->flush()] *)
| Verify (cb : nat) (requestedErrors : Z). (* [_verifCB(_requestedErrors.load())] *)

(** A detached thread started by [log]: before and after it has formatted
    its line. *)
Inductive Detached : Type :=
| Spawned (c : LogCall)
| Formatted (e : queue_element_t).

(** The life of the [Impl] object.  [Terminated] is [std::terminate], which
    an exception leaving a detached thread calls. *)
Inductive Lifetime : Type :=
| Alive
| Destructing      (* in [~Impl], after [_log = false] *)
| Destroyed        (* [~Impl] has returned *)
| Terminated.

Record System : Type := mkSystem {
  impl : Impl;
  detached : list Detached;
  life : Lifetime;
  trace : list Event
}.

Definition boot (globalThreshold_ : Priority) (category_ : string) : System :=
  mkSystem (Impl_ctor globalThreshold_ category_) [] Alive [].

(** The [for] loop over [_dests] of the worker, for one message: the entry
    at index [n] comes first. *)
Fixpoint write_all (n : nat) (msg : queue_element_t) (dests : list LogTarget) : list Event :=
  match dests with
  | [] => []
  | target :: rest =>
      (if _enabled target && negb (pri_lt (fst (snd msg)) (_threshold target))
          && has_dest target
       then [Write n (snd (snd msg))] else [])
      ++ write_all (S n) msg rest
  end.

(** The [for] loop over [_dests] of the destructor. *)
Fixpoint flush_all (n : nat) (dests : list LogTarget) : list Event :=
  match dests with
  | [] => []
  | target :: rest =>
      (if has_dest target then [Flush n] else []) ++ flush_all (S n) rest
  end.

(** The first block of [log], under [_writeMutex]: [None] is the early
    [return]. *)
Definition log_gate (c : LogCall) (i : Impl) : option Impl :=
  if pri_lt (pri_ c) (_globalThreshold i) then None
  else
    match _verifCB i with
    | Some _ =>
        if negb (pri_lt (pri_ c) (_errorThreshold i))
        then Some (set_requestedErrors ((_requestedErrors i + 1) mod SIZE_MAX_succ) i)
        else Some i
    | None => Some i
    end.

Fixpoint replace_nth {A : Type} (k : nat) (x : A) (l : list A) : list A :=
  match l, k with
  | [], _ => []
  | _ :: rest, O => x :: rest
  | y :: rest, S k' => y :: replace_nth k' x rest
  end.

Fixpoint remove_nth {A : Type} (k : nat) (l : list A) : list A :=
  match l, k with
  | [], _ => []
  | _ :: rest, O => rest
  | y :: rest, S k' => y :: remove_nth k' rest
  end.

(** The atomic actions of a schedule. *)
Inductive Action : Type :=
| CallLog (c : LogCall)
| CallCategory (category_ : string)
| CallAddDest (name_ : string) (dest_ : ptr_t)
| CallAddDestThreshold (name_ : string) (thresHold_ : Priority) (dest_ : ptr_t)
| CallPermitDest (name_ : string) (enable_ : bool)
| CallThreshold (globalThreshold_ : Priority)
| CallThresholdDest (destName_ : string) (threshold_ : Priority)
| CallVerifyCB (cb_ : verif_cb_t)
| CallErrorThreshold (errorThreshold_ : Priority)
| DetachedFormat (k : nat)     (* the k-th detached thread formats its line *)
| DetachedPush (k : nat)       (* the k-th detached thread pushes and ends *)
| LoggerStep                   (* the worker runs to its next lock *)
| DtorStop                     (* [~Impl]: [_log = false] *)
| DtorJoin.                    (* [~Impl]: [join] returns; flushes and callback *)

Definition with_impl (f : Impl -> Impl) (s : System) : System :=
  mkSystem (f (impl s)) (detached s) (life s) (trace s).

(** A member function that locks [_destMutex] cannot run while the worker
    holds it. *)
Definition destMutex_free (s : System) : bool :=
  match _logger (impl s) with Dispatching _ => false | _ => true end.

(** A call of a public member function: the object must be alive. *)
Definition exec_call (a : Action) (s : System) : option System :=
  match life s with
  | Alive =>
      match a with
      | CallLog c =>
          match log_gate c (impl s) with
          | None => Some s
          | Some i => Some (mkSystem i (detached s ++ [Spawned c]) (life s) (trace s))
          end
      | CallCategory category_ => Some (with_impl (set_category category_) s)
      | CallAddDest name_ dest_ =>
          if destMutex_free s then Some (with_impl (addDest name_ dest_) s) else None
      | CallAddDestThreshold name_ thresHold_ dest_ =>
          if destMutex_free s
          then Some (with_impl (addDest_threshold name_ thresHold_ dest_) s) else None
      | CallPermitDest name_ enable_ =>
          if destMutex_free s then Some (with_impl (permitDest name_ enable_) s) else None
      | CallThreshold globalThreshold_ =>
          Some (with_impl (set_globalThreshold globalThreshold_) s)
      | CallThresholdDest destName_ threshold_ =>
          if destMutex_free s
          then Some (with_impl (threshold_dest destName_ threshold_) s) else None
      | CallVerifyCB cb_ => Some (with_impl (set_verifCB cb_) s)
      | CallErrorThreshold errorThreshold_ =>
          Some (with_impl (set_errorThreshold errorThreshold_) s)
      | _ => None
      end
  | _ => None
  end.

(** One step of a detached thread; the object must not be destroyed yet. *)
Definition exec_detached (format_step : bool) (k : nat) (s : System) : option System :=
  match life s with
  | Alive | Destructing =>
      match nth_error (detached s) k, format_step with
      | Some (Spawned c), true =>
          match format (_category (impl s)) c with
          | Ok line =>
              Some (mkSystem (impl s)
                      (replace_nth k (Formatted (now c, (pri_ c, line))) (detached s))
                      (life s) (trace s))
          | Throw _ => Some (mkSystem (impl s) (detached s) Terminated (trace s))
          end
      | Some (Formatted e), false =>
          Some (mkSystem (set_queue (push e (_queue (impl s))) (impl s))
                  (remove_nth k (detached s)) (life s) (trace s))
      | _, _ => None
      end
  | _ => None
  end.

(** One step of the worker: from the head of the loop to the exit, to the
    wait or (when the predicate of [wait_for] holds at once) to the swap;
    from the wait to the swap, on a notification or on the timeout; one
    message of the local queue; and the end of a batch. *)
Definition exec_logger (s : System) : option System :=
  match life s with
  | Alive | Destructing =>
      let i := impl s in
      match _logger i with
      | AtLoopHead =>
          if empty (_queue i) && negb (_log i)
          then Some (with_impl (set_logger Exited) s)
          else if empty (_queue i)
          then Some (with_impl (set_logger Waiting) s)
          else Some (with_impl (fun i => set_logger (Dispatching (_queue i)) (set_queue [] i)) s)
      | Waiting =>
          Some (with_impl (fun i => set_logger (Dispatching (_queue i)) (set_queue [] i)) s)
      | Dispatching [] => Some (with_impl (set_logger AtLoopHead) s)
      | Dispatching (msg :: localQueue) =>
          Some (mkSystem (set_logger (Dispatching localQueue) i) (detached s) (life s)
                  (trace s ++ Popped msg :: write_all 0 msg (_dests i)))
      | Exited => None
      end
  | _ => None
  end.

(** [~Impl]. *)
Definition exec_dtor (join : bool) (s : System) : option System :=
  match life s, join with
  | Alive, false => Some (mkSystem (set_log false (impl s)) (detached s) Destructing (trace s))
  | Destructing, true =>
      match _logger (impl s) with
      | Exited =>
          Some (mkSystem (impl s) (detached s) Destroyed
                  (trace s ++
                     match _verifCB (impl s) with
                     | Some cb =>
                         flush_all 0 (_dests (impl s))
                         ++ [Verify cb (_requestedErrors (impl s))]
                     | None => []
                     end))
      | _ => None
      end
  | _, _ => None
  end.

(** One action; [None] when the action cannot run in this state. *)
Definition exec (a : Action) (s : System) : option System :=
  match a with
  | DetachedFormat k => exec_detached true k s
  | DetachedPush k => exec_detached false k s
  | LoggerStep => exec_logger s
  | DtorStop => exec_dtor false s
  | DtorJoin => exec_dtor true s
  | _ => exec_call a s
  end.

(** A schedule. *)
Fixpoint run (acts : list Action) (s : System) : option System :=
  match acts with
  | [] => Some s
  | a :: rest =>
      match exec a s with
      | Some s' => run rest s'
      | None => None
      end
  end.

(** The lines written to one destination, in order. *)
Fixpoint written_to (target : nat) (t : list Event) : list string :=
  match t with
  | [] => []
  | Write n line :: rest =>
      if Nat.eqb n target then line :: written_to target rest else written_to target rest
  | _ :: rest => written_to target rest
  end.

(** ** Log.h: the logging macros *)

(** What a use of [MRLogL] passes besides the priority: the streamed
    message, [__FUNCTION__], [__FILE__], [__LINE__] and
    [std::this_thread::get_id()]; and the time stamp [log] then takes. *)
Record CallSite : Type := mkCallSite {
  site_now : time_point_t;
  site_message : string;
  site_function : string;
  site_file : string;
  site_line : Z;
  site_thread : thread_id
}.

(** [MRLogL(logger, priority, message)], as the call it makes. *)
Definition MRLogL (priority : Priority) (site : CallSite) : Action :=
  CallLog (mkLogCall (site_now site) (site_message site) priority
             (site_function site) (site_file site) (site_line site) (site_thread site)).

Definition MRLogDebugL : CallSite -> Action := MRLogL Debug.
Definition MRLogInfoL : CallSite -> Action := MRLogL Info.
Definition MRLogWarningL : CallSite -> Action := MRLogL Warning.
Definition MRLogErrorL : CallSite -> Action := MRLogL Error.
Definition MRLogCriticalL : CallSite -> Action := MRLogL Critical.

(** ** Log.cpp: the global logger; app/Tester.cpp: the test set-up *)

(** [globalLogger()]: the function-local static, built with the default
    arguments at the first call. *)
Definition globalLogger : System := boot Info "global".

(** [Test::Test]: the calls it makes on the global logger, in order, when
    the three files open.  [cb] names the verification callback and
    [errorThreshold_] is what [globalLogger().errorThreshold()] returns. *)
Definition Test_ctor (cb : nat) (errorThreshold_ : Priority) : list Action :=
  [CallCategory "tester";
   CallThreshold Debug;
   CallVerifyCB (Some cb);
   CallAddDest "all_logs1.txt" (Some (FileDest "all_logs1.txt"));
   CallAddDest "all_logs2.txt" (Some (FileDest "all_logs2.txt"));
   CallAddDestThreshold "errors.txt" errorThreshold_ (Some (FileDest "errors.txt"));
   CallAddDest "stdout" (Some StdOutDest);
   CallAddDestThreshold "stderr" Warning (Some StdErrDest)].

(** [priorityDist] of [Test::operator()]: the bounds of the
    [uniform_int_distribution] the priorities are drawn from. *)
Definition priorityDist : Z * Z := (0, underlying __Size - 1).

(** The [MRLogG] of [Test::operator()] with a drawn priority. *)
Definition Test_log (draw : Z) (site : CallSite) : Action :=
  MRLogL (mkPriority draw) site.

(** ** Log.cpp: what a file destination is given; app/Tester.cpp: the check *)

(** [FileDest::write] streams the line into [_file] while the stream is
    good: the characters streamed into the destination of the entry at
    index [target], in order.  This is what went through that one stream;
    what the file of that name holds is a matter of the file system (the
    stream opens it truncated, and so does any other stream opened on the
    file). *)
Definition streamed_into (target : nat) (t : list Event) : string :=
  String.concat "" (written_to target t).

(** [std::getline] until it fails: the text between newlines; a last line
    without a newline counts when it is not empty. *)
Fixpoint getlines (line : string) (content : string) : list string :=
  match content with
  | EmptyString => if String.eqb line "" then [] else [line]
  | String ch rest =>
      if Ascii.eqb ch (ascii_of_nat 10) then line :: getlines "" rest
      else getlines (line ++ String ch EmptyString) rest
  end.

(** The first block of the verification callback of [Test::Test]: the loop
    over the lines of the two files, giving [match] and [count]. *)
Fixpoint Test_compare (l1 l2 : list string) : nat * nat :=
  match l1, l2 with
  | line1 :: rest1, line2 :: rest2 =>
      let '(matched, count) := Test_compare rest1 rest2 in
      ((if String.eqb line1 line2 then S matched else matched), S count)
  | _, _ => (0%nat, 0%nat)
  end.

(** * The vocabulary of the properties *)

(** ** Notions *)

(** The indices of the registry entries that hold a destination, ascending. *)
Definition flush_order (dests : list LogTarget) : list nat :=
  filter (fun n => match nth_error dests n with
                   | Some target => has_dest target
                   | None => false
                   end)
         (seq 0 (List.length dests)).

(** The settings the gate of [log] reads. *)
Record Settings : Type := mkSettings {
  globalThreshold : Priority;
  errorThreshold : Priority;
  callback : verif_cb_t
}.

Definition settings_of (s : System) : Settings :=
  mkSettings (_globalThreshold (impl s)) (_errorThreshold (impl s)) (_verifCB (impl s)).

(** The settings after a call of one of the three setters. *)
Definition settings_after (a : Action) (c : Settings) : Settings :=
  match a with
  | CallThreshold p => mkSettings p (errorThreshold c) (callback c)
  | CallErrorThreshold p => mkSettings (globalThreshold c) p (callback c)
  | CallVerifyCB cb => mkSettings (globalThreshold c) (errorThreshold c) cb
  | _ => c
  end.

(** A [log] call made while a callback is registered, with a priority that
    is at least the error threshold and at least the global threshold. *)
Definition is_requested_error (c : Settings) (a : Action) : bool :=
  match a, callback c with
  | CallLog call, Some _ =>
      negb (pri_lt (pri_ call) (errorThreshold c))
      && negb (pri_lt (pri_ call) (globalThreshold c))
  | _, _ => false
  end.

(** The number of such calls in a schedule that starts with settings [c]. *)
Fixpoint requested_errors (c : Settings) (acts : list Action) : nat :=
  match acts with
  | [] => 0%nat
  | a :: rest =>
      ((if is_requested_error c a then 1 else 0)
       + requested_errors (settings_after a c) rest)%nat
  end.

(** The batch the worker has swapped out and not yet written. *)
Definition localQueue_of (s : System) : priority_queue_t :=
  match _logger (impl s) with
  | Dispatching localQueue => localQueue
  | _ => []
  end.

(** [e] waits in the queue or in the worker's batch, and the worker runs. *)
Definition pending (e : queue_element_t) (s : System) : Prop :=
  _logger (impl s) <> Exited
  /\ (In e (_queue (impl s)) \/ In e (localQueue_of s)).

(** [e] was popped and written to the registry [ds] somewhere in [mid]. *)
Definition dispatched_in (e : queue_element_t) (ds : list LogTarget) (mid : list Event) : Prop :=
  exists pre post, mid = (pre ++ Popped e :: write_all 0 e ds ++ post)%list.

(** While the object is alive the flag [_log] is up, and while the flag is
    up the worker has not left its loop. *)
Definition worker_runs (s : System) : Prop :=
  (life s = Alive -> _log (impl s) = true)
  /\ (_log (impl s) = true -> _logger (impl s) <> Exited).

(** The state a schedule leaves (the state it started in when it cannot run). *)
Definition state_after (acts : list Action) (s : System) : System :=
  match run acts s with
  | Some s' => s'
  | None => s
  end.

(** [c] is a [log] call of the schedule whose priority was not below the
    global threshold when the call was made. *)
Definition accepted (s0 : System) (acts : list Action) (c : LogCall) : Prop :=
  exists before after at_call,
    acts = (before ++ CallLog c :: after)%list
    /\ run before s0 = Some at_call
    /\ pri_lt (pri_ c) (_globalThreshold (impl at_call)) = false.

(** [e] is the queue element of an accepted call: the time stamp and the
    priority of the call, and its line as formatted under some category. *)
Definition record_of (s0 : System) (acts : list Action) (e : queue_element_t) : Prop :=
  exists c category line,
    accepted s0 acts c
    /\ format category c = Ok line
    /\ e = (now c, (pri_ c, line)).

Definition provenance (s0 : System) (acts : list Action) (s : System) : Prop :=
  (forall c, In (Spawned c) (detached s) -> accepted s0 acts c)
  /\ (forall e, In (Formatted e) (detached s) -> record_of s0 acts e)
  /\ (forall e, In e (_queue (impl s)) \/ In e (localQueue_of s) -> record_of s0 acts e)
  /\ (forall e, In (Popped e) (trace s) -> record_of s0 acts e)
  /\ (forall n line, In (Write n line) (trace s) ->
                     exists e, In (Popped e) (trace s) /\ snd (snd e) = line).

(** The five enumerators that have a name. *)
Definition priority_names : list (Priority * string) :=
  [(Debug, "Debug"); (Info, "Info"); (Warning, "Warning"); (Error, "Error");
   (Critical, "Critical")].

(** What the queue does give: the messages of one batch are popped in
    ascending order of their time stamps. *)
Definition time_sorted (q : priority_queue_t) : Prop :=
  StronglySorted (fun a b => fst a <= fst b) q.

(** The condition of the worker's [if]: the entry takes the message. *)
Definition takes (target : LogTarget) (msg : queue_element_t) : bool :=
  _enabled target && negb (pri_lt (fst (snd msg)) (_threshold target))
  && has_dest target.

(** The action is a [permitDest] or a [threshold] call on this name. *)
Definition retargets (name_ : string) (a : Action) : bool :=
  match a with
  | CallPermitDest n _ => String.eqb n name_
  | CallThresholdDest n _ => String.eqb n name_
  | _ => false
  end.

(** The messages the worker has popped, in order. *)
Fixpoint popped_of (t : list Event) : list queue_element_t :=
  match t with
  | [] => []
  | Popped msg :: rest => msg :: popped_of rest
  | _ :: rest => popped_of rest
  end.

(** A [log] call whose priority is not below the global threshold. *)
Definition is_accepted (c : Settings) (a : Action) : bool :=
  match a with
  | CallLog call => negb (pri_lt (pri_ call) (globalThreshold c))
  | _ => false
  end.

(** The number of such calls in a schedule that starts with settings [c]. *)
Fixpoint accepted_calls (c : Settings) (acts : list Action) : nat :=
  match acts with
  | [] => 0%nat
  | a :: rest =>
      ((if is_accepted c a then 1 else 0) + accepted_calls (settings_after a c) rest)%nat
  end.

(** The messages on their way: held by a detached thread, in the queue, or
    in the batch of the worker. *)
Definition in_flight (s : System) : nat :=
  (List.length (detached s) + List.length (_queue (impl s))
   + List.length (localQueue_of s))%nat.

(** An event of the worker, as opposed to one of the destructor. *)
Definition is_work (ev : Event) : bool :=
  match ev with
  | Popped _ | Write _ _ => true
  | Flush _ | Verify _ _ => false
  end.

(** What the destructor adds to the trace when it has returned. *)
Definition teardown_events (s : System) : list Event :=
  match life s, _verifCB (impl s) with
  | Destroyed, Some cb =>
      (map Flush (flush_order (_dests (impl s)))
       ++ [Verify cb (_requestedErrors (impl s))])%list
  | _, _ => []
  end.

(** The values a [time_point] of nanoseconds in 64 bits can have. *)
Definition representable (t : time_point_t) : Prop :=
  - 2 ^ 63 <= t < 2 ^ 63.

(** The priority is one of the five enumerators that have a name. *)
Definition named (p : Priority) : Prop :=
  exists name, In (p, name) priority_names.

(** The priority a detached thread carries. *)
Definition detached_pri (d : Detached) : Priority :=
  match d with
  | Spawned c => pri_ c
  | Formatted e => fst (snd e)
  end.

(** The number of messages on their way whose priority is not below
    [threshold_]. *)
Definition in_flight_from (threshold_ : Priority) (s : System) : nat :=
  (List.length (filter (fun d => negb (pri_lt (detached_pri d) threshold_)) (detached s))
   + List.length (filter (fun e => negb (pri_lt (fst (snd e)) threshold_))
                    (_queue (impl s)))
   + List.length (filter (fun e => negb (pri_lt (fst (snd e)) threshold_))
                    (localQueue_of s)))%nat.

(** The action sets the error threshold or the verification callback. *)
Definition resets_counting (a : Action) : bool :=
  match a with
  | CallErrorThreshold _ | CallVerifyCB _ => true
  | _ => false
  end.

(** The action is a [permitDest(name_, true)]. *)
Definition enables (name_ : string) (a : Action) : bool :=
  match a with
  | CallPermitDest n true => String.eqb n name_
  | _ => false
  end.

(** The indices, ascending, of the registry entries that are enabled, whose
    threshold the priority of [e] is not below, and that hold a
    destination. *)
Definition write_order (e : queue_element_t) (dests : list LogTarget) : list nat :=
  filter (fun n => match nth_error dests n with
                   | Some target =>
                       _enabled target
                       && negb (pri_lt (fst (snd e)) (_threshold target))
                       && has_dest target
                   | None => false
                   end)
         (seq 0 (List.length dests)).

(** The number of steps of the worker in a schedule. *)
Fixpoint worker_steps (acts : list Action) : nat :=
  match acts with
  | [] => 0%nat
  | LoggerStep :: rest => S (worker_steps rest)
  | _ :: rest => worker_steps rest
  end.

(** ** Scenarios: concrete schedules and the states they reach *)

(** Two destinations registered under one name, then the name disabled: the
    first entry is disabled, the second still enabled. *)
Definition shadowed_registry : Impl :=
  permitDest "a" false
    (addDest "a" (Some StdErrDest)
       (addDest "a" (Some StdOutDest) (Impl_ctor Info "global"))).

(** A logger with the callback 7 and two destinations, torn down. *)
Definition torn_down_with_callback : list Action :=
  [CallVerifyCB (Some 7%nat); CallAddDest "out" (Some StdOutDest);
   CallAddDest "none" None; CallAddDest "err" (Some StdErrDest);
   DtorStop; LoggerStep].

(** Scenario 4 of the specification: three [Info] and two [Error] messages
    with a callback registered. *)
Definition say (pri : Priority) : Action :=
  CallLog (mkLogCall 0 "m" pri "f" "t.cpp" 1 1).

Definition scenario_errors : list Action :=
  [CallVerifyCB (Some 7%nat); say Info; say Error; say Info; say Error; say Info;
   DtorStop; LoggerStep; DtorJoin].

(** Two messages are queued when the destructor starts; a third is still
    held by its detached thread. *)
Definition stop_with_queued_messages : list Action :=
  [CallAddDest "out" (Some StdOutDest);
   CallLog (mkLogCall 5 "a" Info "f" "t.cpp" 1 1);
   CallLog (mkLogCall 6 "b" Error "f" "t.cpp" 2 1);
   CallLog (mkLogCall 7 "c" Error "f" "t.cpp" 3 1);
   DetachedFormat 0; DetachedFormat 1; DetachedPush 0; DetachedPush 0].

Definition drain_and_exit : list Action :=
  [LoggerStep; LoggerStep; LoggerStep; LoggerStep; LoggerStep].

Definition at_stop : System :=
  Eval vm_compute in state_after stop_with_queued_messages (boot Info "global").

Definition stopped : System :=
  Eval vm_compute in state_after [DtorStop] at_stop.

Definition drained : System :=
  Eval vm_compute in state_after drain_and_exit stopped.

Definition second_message : queue_element_t :=
  (6, (Error, "Jan  1 00:00:00.6 1 global f Error: b (t.cpp:2)" ++ newline)).

(** Scenario 1 of the specification: threshold [Debug], one destination,
    one [Debug] message "hello". *)
Definition hello : LogCall := mkLogCall 1500000042 "hello" Debug "main" "t.cpp" 16 3.



(** An entry registered with a null pointer, and one [Info] message popped
    by the worker. *)
Definition note : LogCall := mkLogCall 8 "note" Info "main" "t.cpp" 4 1.

Definition null_entry_schedule : list Action :=
  [CallAddDest "null" None; CallAddDest "out" (Some StdOutDest); CallLog note;
   DetachedFormat 0; DetachedPush 0; LoggerStep].

Definition before_pop : System :=
  Eval vm_compute in state_after null_entry_schedule (boot Info "global").

Definition after_pop : System :=
  Eval vm_compute in state_after [LoggerStep] before_pop.

Definition note_line : string :=
  "Jan  1 00:00:00.8 1 global main Info: note (t.cpp:4)" ++ newline.

(** Two calls, the first with the earlier time stamp; the detached thread
    of the second call pushes first and the worker drains in between. *)
Definition first_call : LogCall := mkLogCall 1000000000 "first" Info "f" "a.cpp" 10 1.
Definition second_call : LogCall := mkLogCall 2000000000 "second" Info "g" "a.cpp" 20 2.

Definition late_insert : list Action :=
  [CallAddDest "out" (Some StdOutDest); CallAddDest "err" (Some StdErrDest);
   CallLog first_call; CallLog second_call;
   DetachedFormat 1; DetachedPush 1; LoggerStep; LoggerStep; LoggerStep;
   DetachedFormat 0; DetachedPush 0; LoggerStep; LoggerStep; LoggerStep;
   DtorStop; LoggerStep; DtorJoin].

Definition first_line : string :=
  "Jan  1 00:00:01.0 1 global f Info: first (a.cpp:10)" ++ newline.
Definition second_line : string :=
  "Jan  1 00:00:02.0 2 global g Info: second (a.cpp:20)" ++ newline.

Definition after_late_insert : System :=
  Eval vm_compute in state_after late_insert (boot Info "global").

(** The tester: its set-up on the global logger, then three messages of
    one of its threads (priorities drawn 3, 1 and 4), the last of which is
    pushed after the first batch, and the teardown. *)
Definition tester_site (now_ : time_point_t) (message : string) : CallSite :=
  mkCallSite now_ message "operator()" "Tester.cpp" 155 11.

Definition tester_run : list Action :=
  [Test_log 3 (tester_site 100 "0: Let's log some random text: abc");
   Test_log 1 (tester_site 200 "1: Let's log some random text: de");
   Test_log 4 (tester_site 300 "2: Let's log some random text: f");
   DetachedFormat 0; DetachedFormat 1; DetachedFormat 2;
   DetachedPush 0; DetachedPush 0;
   LoggerStep; LoggerStep; LoggerStep; LoggerStep;
   DetachedPush 0;
   LoggerStep; LoggerStep; LoggerStep;
   DtorStop; LoggerStep; DtorJoin].

Definition tester_ready : System :=
  Eval vm_compute in state_after (Test_ctor 1 Error) globalLogger.

Definition tester_done : System :=
  Eval vm_compute in state_after tester_run tester_ready.

(** The tester at the moment the worker has swapped out its first batch. *)
Definition tester_first_batch : list Action :=
  (Test_ctor 1 Error ++ firstn 9 tester_run)%list.

Definition tester_in_batch : System :=
  Eval vm_compute in state_after tester_first_batch globalLogger.

(** Calls that disable the error file and change thresholds. *)
Definition reconfigure : list Action :=
  [CallPermitDest "errors.txt" false; CallThresholdDest "stderr" Debug;
   CallThreshold Warning; CallAddDest "more" (Some StdOutDest)].

Definition tester_reconfigured : System :=
  Eval vm_compute in state_after reconfigure tester_ready.

(** Two destinations under one name, then calls on that name. *)
Definition twice_registered : System :=
  Eval vm_compute in
    state_after [CallAddDest "a" (Some StdOutDest);
                 CallAddDestThreshold "a" Error (Some StdErrDest)]
                (boot Info "global").

Definition calls_on_a : list Action :=
  [CallPermitDest "a" false; CallThresholdDest "a" Critical; CallPermitDest "a" true;
   CallPermitDest "a" false].

Definition twice_registered_after : System :=
  Eval vm_compute in state_after calls_on_a twice_registered.

(** A message whose detached thread pushes only after the worker has left
    its loop. *)
Definition exited_early : System :=
  Eval vm_compute in
    state_after [CallAddDest "out" (Some StdOutDest); CallLog note; DetachedFormat 0;
                 DtorStop; LoggerStep]
                (boot Info "global").

Definition late_push : list Action := [DetachedPush 0; DtorJoin].

Definition after_late_push : System :=
  Eval vm_compute in state_after late_push exited_early.

(** A call with [Priority::__Size], accepted and not yet formatted. *)
Definition sized : LogCall := mkLogCall 9 "oops" __Size "main" "t.cpp" 5 1.

Definition with_unnamed_priority : System :=
  Eval vm_compute in state_after [CallLog sized] (boot Info "global").

(** One [Critical] message logged and written after the error file has
    been disabled. *)
Definition critical_run : list Action :=
  [Test_log 4 (tester_site 400 "3: Let's log some random text: g");
   DetachedFormat 0; DetachedPush 0; LoggerStep; LoggerStep; LoggerStep].

Definition tester_reconfigured_done : System :=
  Eval vm_compute in state_after critical_run tester_reconfigured.

(** What other threads do while the worker is in its first batch: a
    threshold is changed, the third message is pushed, the worker pops one
    message, the category is changed. *)
Definition during_batch : list Action :=
  [CallThreshold Warning; DetachedPush 0; LoggerStep; CallCategory "other"].

Definition tester_mid_batch : System :=
  Eval vm_compute in state_after during_batch tester_in_batch.

(** The two files when each holds what was streamed into its destination
    during the run of the tester. *)
Definition tester_disk (fname : string) : string :=
  if String.eqb fname "all_logs1.txt" then streamed_into 0 (trace tester_done)
  else if String.eqb fname "all_logs2.txt" then streamed_into 1 (trace tester_done)
  else "".

(** * Properties *)

(** ** Streaming a priority *)

(** C10: inserting a [Priority] into a stream appends exactly one of the
    five names "Debug", "Info", "Warning", "Error", "Critical" for the five
    named enumerators, and throws the runtime error "unknown priority!" for
    every other value; [Priority::__Size] is such a value. *)
Theorem put_Priority_names (lhs_ : Ostream) (p : Priority) :
  ((p = Debug /\ put_Priority lhs_ p = Ok (lhs_ ++ "Debug"))
   \/ (p = Info /\ put_Priority lhs_ p = Ok (lhs_ ++ "Info"))
   \/ (p = Warning /\ put_Priority lhs_ p = Ok (lhs_ ++ "Warning"))
   \/ (p = Error /\ put_Priority lhs_ p = Ok (lhs_ ++ "Error"))
   \/ (p = Critical /\ put_Priority lhs_ p = Ok (lhs_ ++ "Critical"))
   \/ ((underlying p < 0 \/ 4 < underlying p)
       /\ put_Priority lhs_ p = Throw (runtime_error "unknown priority!")))
  /\ put_Priority lhs_ __Size = Throw (runtime_error "unknown priority!").
Proof.
  split; [| reflexivity].
  destruct p as [v]. unfold put_Priority, Debug, Info, Warning, Error, Critical.
  cbn [underlying].
  destruct v as [| q | q].
  - left. split; reflexivity.
  - destruct q as [[[|q|]|[q|q|]|]|[[q|q|]|[q|q|]|]|];
      try (do 5 right; split; [right; lia | reflexivity]).
    + do 3 right. left. split; reflexivity.
    + do 4 right. left. split; reflexivity.
    + do 2 right. left. split; reflexivity.
    + right. left. split; reflexivity.
  - do 5 right. split; [left; lia | reflexivity].
Qed.

(** ** Construction *)

(** C9: a [Logger] built with no argument has global threshold [Info],
    category "global", error threshold [Error], no destination and a
    requested-error count of zero; built with arguments it has exactly the
    given global threshold and category. *)
Theorem Logger_ctor_initial_state :
  _globalThreshold (Logger_ctor None None) = Info
  /\ _category (Logger_ctor None None) = "global"
  /\ _errorThreshold (Logger_ctor None None) = Error
  /\ _dests (Logger_ctor None None) = []
  /\ _requestedErrors (Logger_ctor None None) = 0
  /\ forall (globalThreshold_ : Priority) (category_ : string),
       _globalThreshold (Logger_ctor (Some globalThreshold_) (Some category_))
         = globalThreshold_
       /\ _category (Logger_ctor (Some globalThreshold_) (Some category_)) = category_.
Proof.
  repeat split.
Qed.

(** ** The registry *)

Lemma find_if_first (name_ : string) (dests : list LogTarget) (t : LogTarget) :
  find_if name_ dests = Some t <->
  exists before after,
    dests = (before ++ t :: after)%list
    /\ (forall x, In x before -> _name x <> name_)
    /\ _name t = name_.
Proof.
  induction dests as [| d rest IH]; cbn [find_if].
  - split; [discriminate |].
    intros (before & after & E & _). destruct before; discriminate.
  - destruct (String.eqb_spec name_ (_name d)) as [E | N].
    + split.
      * intros [= <-]. exists [], rest.
        split; [reflexivity | split; [intros x [] | auto]].
      * intros (before & after & L & Hb & Ht).
        destruct before as [| b before]; cbn in L.
        -- congruence.
        -- injection L as <- _. exfalso. apply (Hb d); [left; reflexivity | auto].
    + rewrite IH. split.
      * intros (before & after & -> & Hb & Ht).
        exists (d :: before), after. repeat split; auto.
        intros x [<- | Hx]; [congruence | auto].
      * intros (before & after & L & Hb & Ht).
        destruct before as [| b before]; cbn in L.
        -- injection L as -> _. congruence.
        -- injection L as -> ->. exists before, after. repeat split; auto.
           intros x Hx. apply Hb. right. exact Hx.
Qed.

(** C6 (amended): [logging(destName_)] is true exactly when the first entry
    of that name exists and is enabled; entries of the same name that come
    later in the registry are not looked at. *)
Theorem logging_first_entry (destName_ : string) (i : Impl) :
  logging destName_ i = true <->
  exists before target after,
    _dests i = (before ++ target :: after)%list
    /\ (forall x, In x before -> _name x <> destName_)
    /\ _name target = destName_
    /\ _enabled target = true.
Proof.
  unfold logging. split.
  - destruct (find_if destName_ (_dests i)) as [cit |] eqn:F; [| discriminate].
    intros En. apply find_if_first in F. destruct F as (before & after & L & Hb & Ht).
    exists before, cit, after. auto.
  - intros (before & target & after & L & Hb & Ht & En).
    assert (F : find_if destName_ (_dests i) = Some target).
    { apply find_if_first. exists before, after. auto. }
    rewrite F. exact En.
Qed.

(** C6 as stated fails: an enabled entry named "a" exists, and
    [logging("a")] is false. *)
Lemma logging_ignores_later_entry :
  ~ (logging "a" shadowed_registry = true <->
     exists target, In target (_dests shadowed_registry)
                    /\ _name target = "a" /\ _enabled target = true).
Proof.
  intros [_ H].
  assert (L : logging "a" shadowed_registry = true).
  { apply H. exists (mkLogTarget "a" (Some StdErrDest) Info true).
    split; [right; left; reflexivity | split; reflexivity]. }
  discriminate L.
Qed.

(** ** Registering a file that cannot be opened *)

(** C7: when the file of a [FileDest] cannot be opened, the registration
    [addDest(name_, make_unique<FileDest>(fname_))] throws to its caller and
    leaves the logger as it was; in particular no entry is added. *)
Theorem addDest_FileDest_unopenable
    (opens : string -> bool) (name_ fname_ : string) (i : Impl) :
  opens fname_ = false ->
  addDest_FileDest opens name_ fname_ i
  = (i, Throw (runtime_error ("cannot open file " ++ fname_ ++ " for logging!")))
  /\ _dests (fst (addDest_FileDest opens name_ fname_ i)) = _dests i.
Proof.
  intros H. unfold addDest_FileDest, FileDest_ctor. rewrite H. split; reflexivity.
Qed.

Lemma addDest_FileDest_unopenable_witness :
  addDest_FileDest (fun _ => false) "test1" "/no/such/dir/test1" (Impl_ctor Debug "debugger")
  = (Impl_ctor Debug "debugger",
     Throw (runtime_error "cannot open file /no/such/dir/test1 for logging!"))
  /\ _dests (fst (addDest_FileDest (fun _ => false) "test1" "/no/such/dir/test1"
                    (Impl_ctor Debug "debugger")))
     = [].
Proof.
  exact (addDest_FileDest_unopenable (fun _ => false) "test1" "/no/such/dir/test1"
           (Impl_ctor Debug "debugger") eq_refl).
Defined.

(** ** Schedules *)

Lemma run_app (xs ys : list Action) (s : System) :
  run (xs ++ ys) s =
  match run xs s with
  | Some m => run ys m
  | None => None
  end.
Proof.
  revert s. induction xs as [| a xs IH]; intros s; cbn [run app]; [reflexivity |].
  destruct (exec a s); [apply IH | reflexivity].
Qed.

Lemma run_snoc (xs : list Action) (a : Action) (s s' : System) :
  run (xs ++ [a]) s = Some s' <->
  exists m, run xs s = Some m /\ exec a m = Some s'.
Proof.
  rewrite run_app. destruct (run xs s) as [m |]; cbn [run].
  - split.
    + intros H. exists m. split; [reflexivity |].
      destruct (exec a m); [exact H | discriminate].
    + intros (m' & [= <-] & E). rewrite E. reflexivity.
  - split; [discriminate | intros (m' & H & _); discriminate].
Qed.

(** A property kept by every action holds along every schedule. *)
Lemma run_invariant (P : System -> Prop) :
  (forall a s s', P s -> exec a s = Some s' -> P s') ->
  forall acts s s', P s -> run acts s = Some s' -> P s'.
Proof.
  intros Step acts. induction acts as [| a acts IH]; intros s s' Ps R; cbn [run] in R.
  - injection R as <-. exact Ps.
  - destruct (exec a s) as [m |] eqn:E; [| discriminate].
    eapply IH; [eapply Step; eassumption | exact R].
Qed.

(** Case analysis of [exec a s = Some s']: one goal for every way an action
    can run, with [s'] replaced by the state the action leaves. *)
Ltac exec_cases H :=
  unfold exec, exec_call, exec_detached, exec_logger, exec_dtor, with_impl in H;
  repeat match type of H with
         | context [match ?x with _ => _ end] => destruct x eqn:?
         end;
  try discriminate H;
  injection H as <-.

Lemma exec_trace_grows (a : Action) (s s' : System) :
  exec a s = Some s' -> exists evs, trace s' = (trace s ++ evs)%list.
Proof.
  intros H. exec_cases H; cbn [trace];
    solve [ exists []; rewrite app_nil_r; reflexivity | eexists; reflexivity ].
Qed.

Lemma run_trace_grows (acts : list Action) (s s' : System) :
  run acts s = Some s' -> exists evs, trace s' = (trace s ++ evs)%list.
Proof.
  revert s. induction acts as [| a acts IH]; intros s R; cbn [run] in R.
  - injection R as <-. exists []. rewrite app_nil_r. reflexivity.
  - destruct (exec a s) as [m |] eqn:E; [| discriminate].
    destruct (exec_trace_grows _ _ _ E) as [e1 H1].
    destruct (IH _ R) as [e2 H2].
    exists (e1 ++ e2)%list. rewrite H2, H1, app_assoc. reflexivity.
Qed.

(** Nothing runs once the object is destroyed or the process terminated. *)
Lemma exec_needs_life (a : Action) (s s' : System) :
  exec a s = Some s' -> life s = Alive \/ life s = Destructing.
Proof.
  intros H. exec_cases H; auto.
Qed.

(** The events of one message: a [Write] for every entry, by index, that is
    enabled, whose threshold the priority reaches, and that holds a
    destination. *)
Lemma in_write_all (ev : Event) (msg : queue_element_t) (dests : list LogTarget) (k : nat) :
  In ev (write_all k msg dests) <->
  exists n target,
    nth_error dests n = Some target
    /\ ev = Write (k + n) (snd (snd msg))
    /\ _enabled target = true
    /\ pri_lt (fst (snd msg)) (_threshold target) = false
    /\ has_dest target = true.
Proof.
  revert k. induction dests as [| t rest IH]; intros k; cbn [write_all].
  - split; [intros [] | intros (n & target & H & _); destruct n; discriminate].
  - rewrite in_app_iff, IH. split.
    + intros [H | (n & target & Hn & -> & He & Hp & Hd)].
      * destruct (_enabled t) eqn:En; cbn [andb] in H; [| destruct H].
        destruct (pri_lt (fst (snd msg)) (_threshold t)) eqn:Pr; cbn [andb negb] in H;
          [destruct H |].
        destruct (has_dest t) eqn:Hd; [| destruct H].
        destruct H as [<- | []].
        exists 0%nat, t. rewrite Nat.add_0_r. auto.
      * exists (S n), target. rewrite Nat.add_succ_r. auto.
    + intros (n & target & Hn & -> & He & Hp & Hd). destruct n as [| n]; cbn in Hn.
      * injection Hn as ->. left. rewrite He, Hp, Hd. rewrite Nat.add_0_r.
        left. reflexivity.
      * right. exists n, target. rewrite Nat.add_succ_r. auto.
Qed.

(** What an action appends to the trace: nothing, or the pop of one message
    with its writes, or the flushes and the callback of the destructor. *)
Lemma exec_events (a : Action) (s s' : System) :
  exec a s = Some s' ->
  (trace s' = trace s /\ life s' <> Destroyed)
  \/ (exists msg localQueue,
        a = LoggerStep
        /\ _logger (impl s) = Dispatching (msg :: localQueue)
        /\ s' = mkSystem (set_logger (Dispatching localQueue) (impl s))
                         (detached s) (life s)
                         (trace s ++ Popped msg :: write_all 0 msg (_dests (impl s))))
  \/ (a = DtorJoin
      /\ s' = mkSystem (impl s) (detached s) Destroyed
                       (trace s ++
                        match _verifCB (impl s) with
                        | Some cb =>
                            flush_all 0 (_dests (impl s))
                            ++ [Verify cb (_requestedErrors (impl s))]
                        | None => []
                        end)).
Proof.
  intros H. exec_cases H; subst; cbn [trace life];
    first
      [ left; split; [reflexivity | congruence]
      | right; left; do 2 eexists; repeat split; reflexivity
      | right; right; split; [reflexivity |];
        repeat match goal with E : ?x = _ |- context [?x] => rewrite E end;
        reflexivity ].
Qed.

(** ** Teardown *)

Lemma filter_seq_shift (f : nat -> bool) (start len : nat) :
  filter f (seq (S start) len) = map S (filter (fun n => f (S n)) (seq start len)).
Proof.
  revert start. induction len as [| len IH]; intros start; cbn [seq filter map].
  - reflexivity.
  - rewrite IH. destruct (f (S start)); reflexivity.
Qed.

Lemma flush_order_cons (target : LogTarget) (rest : list LogTarget) :
  flush_order (target :: rest)
  = ((if has_dest target then [0%nat] else []) ++ map S (flush_order rest))%list.
Proof.
  unfold flush_order. cbn [List.length seq filter nth_error].
  rewrite filter_seq_shift. cbn [nth_error].
  destruct (has_dest target); reflexivity.
Qed.

Lemma flush_all_order (dests : list LogTarget) (k : nat) :
  flush_all k dests = map (fun n => Flush (k + n)) (flush_order dests).
Proof.
  revert k. induction dests as [| target rest IH]; intros k; cbn [flush_all].
  - reflexivity.
  - rewrite flush_order_cons, map_app, map_map, IH.
    f_equal.
    + destruct (has_dest target); cbn [map]; [rewrite Nat.add_0_r |]; reflexivity.
    + apply map_ext. intros n. rewrite Nat.add_succ_r. reflexivity.
Qed.

(** C3 (amended): the destructor goes on only once the worker has exited;
    when a verification callback is set it then calls [flush] on every
    registry entry that holds a destination, in registry order, and after
    that calls the callback once, with the requested-error count; when no
    callback is set it calls neither [flush] nor a callback. *)
Theorem dtor_flushes_then_verifies (s s' : System) :
  exec DtorJoin s = Some s' ->
  _logger (impl s) = Exited
  /\ impl s' = impl s
  /\ trace s'
     = (trace s ++
        match _verifCB (impl s) with
        | Some cb =>
            map Flush (flush_order (_dests (impl s)))
            ++ [Verify cb (_requestedErrors (impl s))]
        | None => []
        end)%list.
Proof.
  intros H. exec_cases H; cbn [impl trace]; repeat split; try reflexivity.
  rewrite flush_all_order. reflexivity.
Qed.

Lemma dtor_flushes_then_verifies_witness :
  exists s s',
    run torn_down_with_callback (boot Info "global") = Some s
    /\ exec DtorJoin s = Some s'
    /\ trace s' = [Flush 0; Flush 2; Verify 7 0].
Proof.
  eexists. eexists. split; [reflexivity |]. split; [reflexivity |].
  match goal with
  | |- trace ?s' = _ =>
      let E := fresh in
      pose proof (dtor_flushes_then_verifies
                    (mkSystem
                       (mkImpl "global" Info
                          [mkLogTarget "out" (Some StdOutDest) Info true;
                           mkLogTarget "none" None Info true;
                           mkLogTarget "err" (Some StdErrDest) Info true]
                          [] Exited false Error 0 (Some 7%nat))
                       [] Destructing [])
                    s' eq_refl) as E;
      destruct E as (_ & _ & E); exact E
  end.
Defined.

(** C3 as stated fails: with no callback set the destructor does not flush.
    One destination is registered; after the whole teardown no [flush] was
    called. *)
Lemma dtor_without_callback_does_not_flush :
  exists s,
    run [CallAddDest "out" (Some StdOutDest); DtorStop; LoggerStep; DtorJoin]
        (boot Info "global") = Some s
    /\ life s = Destroyed
    /\ map has_dest (_dests (impl s)) = [true]
    /\ ~ In (Flush 0) (trace s).
Proof.
  eexists. split; [reflexivity |]. cbn. repeat split. intros [].
Qed.

(** ** The requested-error count *)

Lemma exec_requestedErrors (a : Action) (s s' : System) :
  exec a s = Some s' ->
  settings_of s' = settings_after a (settings_of s)
  /\ _requestedErrors (impl s')
     = if is_requested_error (settings_of s) a
       then (_requestedErrors (impl s) + 1) mod SIZE_MAX_succ
       else _requestedErrors (impl s).
Proof.
  intros H. unfold settings_of, is_requested_error.
  destruct a;
    try (exec_cases H; cbn [impl];
         repeat match goal with E : ?x = _ |- context [?x] => rewrite E end;
         split; reflexivity).
  unfold exec, exec_call in H. destruct (life s); try discriminate.
  unfold log_gate in H. cbn [settings_after globalThreshold errorThreshold callback].
  destruct (pri_lt (pri_ c) (_globalThreshold (impl s))) eqn:G.
  - injection H as <-. rewrite andb_false_r.
    destruct (_verifCB (impl s)); split; reflexivity.
  - destruct (_verifCB (impl s)) eqn:V.
    + rewrite andb_true_r.
      destruct (negb (pri_lt (pri_ c) (_errorThreshold (impl s)))) eqn:Et;
        injection H as <-; cbn [impl]; [| rewrite ?V; split; reflexivity].
      split; [| reflexivity].
      unfold set_requestedErrors.
      cbn [_globalThreshold _errorThreshold _verifCB]. rewrite ?V. reflexivity.
    + injection H as <-. cbn [impl]. rewrite ?V. split; reflexivity.
Qed.

Lemma run_requestedErrors (acts : list Action) (s s' : System) :
  run acts s = Some s' ->
  0 <= _requestedErrors (impl s) < SIZE_MAX_succ ->
  0 <= _requestedErrors (impl s') < SIZE_MAX_succ
  /\ _requestedErrors (impl s')
     = (_requestedErrors (impl s) + Z.of_nat (requested_errors (settings_of s) acts))
       mod SIZE_MAX_succ.
Proof.
  assert (M : 0 < SIZE_MAX_succ) by reflexivity.
  revert s. induction acts as [| a acts IH]; intros s R B; cbn [run] in R.
  - injection R as <-. cbn [requested_errors]. rewrite Z.add_0_r.
    split; [exact B | symmetry; apply Z.mod_small; exact B].
  - destruct (exec a s) as [m |] eqn:E; [| discriminate].
    destruct (exec_requestedErrors _ _ _ E) as [Hs Hn].
    assert (Bm : 0 <= _requestedErrors (impl m) < SIZE_MAX_succ).
    { rewrite Hn. destruct (is_requested_error (settings_of s) a);
        [apply Z.mod_pos_bound; exact M | exact B]. }
    destruct (IH m R Bm) as [B' Eq]. split; [exact B' |].
    rewrite Eq, Hs, Hn. cbn [requested_errors].
    destruct (is_requested_error (settings_of s) a).
    + rewrite Z.add_mod_idemp_l by (intros Z0; rewrite Z0 in M; discriminate).
      f_equal. lia.
    + f_equal.
Qed.

(** The callback runs only in the last step of the destructor, with the
    count as it then is. *)
Lemma verify_is_final (acts : list Action) (s s' : System) :
  run acts s = Some s' ->
  (forall cb n, ~ In (Verify cb n) (trace s)) ->
  forall cb n, In (Verify cb n) (trace s') ->
               life s' = Destroyed /\ n = _requestedErrors (impl s').
Proof.
  intros R Hs.
  refine (run_invariant
            (fun x => forall cb n, In (Verify cb n) (trace x) ->
                                   life x = Destroyed /\ n = _requestedErrors (impl x))
            _ acts s s' _ R).
  - clear. intros a s s' I E cb n Hin.
    assert (L : life s = Alive \/ life s = Destructing) by (eapply exec_needs_life; eauto).
    assert (No : forall cb n, ~ In (Verify cb n) (trace s)).
    { intros cb' n' Hc. destruct (I _ _ Hc) as [D _]. destruct L; congruence. }
    destruct (exec_events _ _ _ E) as [[T _] | [(msg & lq & _ & _ & ->) | [_ ->]]];
      cbn [trace life impl] in *.
    + rewrite T in Hin. exfalso. eapply No; eauto.
    + exfalso. apply in_app_or in Hin. destruct Hin as [Hin | Hin]; [eapply No; eauto |].
      destruct Hin as [Hin | Hin]; [discriminate |].
      apply in_write_all in Hin. destruct Hin as (k & t & _ & Hin & _). discriminate.
    + apply in_app_or in Hin. destruct Hin as [Hin | Hin]; [exfalso; eapply No; eauto |].
      destruct (_verifCB (impl s)) as [cb0 |]; [| destruct Hin].
      apply in_app_or in Hin. destruct Hin as [Hin | Hin].
      * exfalso. rewrite flush_all_order in Hin. apply in_map_iff in Hin.
        destruct Hin as (x & Hx & _). discriminate.
      * destruct Hin as [[= _ <-] | []]. split; reflexivity.
  - intros cb n Hin. exfalso. eapply Hs; eauto.
Qed.

(** C4: in a run of a logger from its construction to its destruction, the
    count handed to the verification callback is the number of [log] calls
    that were made while a callback was registered with a priority at least
    the error threshold and at least the global threshold, both as they
    were at the call (the counter is a [size_t]: the number of such calls
    is taken to fit it). *)
Theorem verify_receives_requested_errors
    (globalThreshold_ : Priority) (category_ : string)
    (acts : list Action) (s : System) (cb : nat) (n : Z) :
  run acts (boot globalThreshold_ category_) = Some s ->
  In (Verify cb n) (trace s) ->
  Z.of_nat (requested_errors (mkSettings globalThreshold_ Error None) acts)
    < SIZE_MAX_succ ->
  n = Z.of_nat (requested_errors (mkSettings globalThreshold_ Error None) acts).
Proof.
  intros R Hin Fit.
  destruct (verify_is_final _ _ _ R (fun _ _ H => H) cb n Hin) as [_ ->].
  destruct (run_requestedErrors _ _ _ R) as [_ Eq].
  { cbn. split; [lia | reflexivity]. }
  rewrite Eq. cbn [boot impl Impl_ctor _requestedErrors]. rewrite Z.add_0_l.
  apply Z.mod_small. split; [apply Nat2Z.is_nonneg | exact Fit].
Qed.

Lemma verify_receives_requested_errors_witness :
  2 = Z.of_nat (requested_errors (mkSettings Info Error None) scenario_errors).
Proof.
  eapply (verify_receives_requested_errors Info "global" scenario_errors _ 7%nat 2).
  - reflexivity.
  - cbn. left. reflexivity.
  - reflexivity.
Defined.

(** ** Shutdown of the worker *)

Lemma in_push (x e : queue_element_t) (q : priority_queue_t) :
  In x (push e q) <-> x = e \/ In x q.
Proof.
  induction q as [| y rest IH]; cbn [push].
  - cbn. intuition congruence.
  - destruct (element_lt e y); cbn [In]; [| rewrite IH]; intuition congruence.
Qed.

(** The worker leaves its loop only from the head of the loop, with the flag
    [_log] down and the queue empty. *)
Lemma worker_exit_condition (a : Action) (s s' : System) :
  exec a s = Some s' ->
  _logger (impl s) <> Exited ->
  _logger (impl s') = Exited ->
  a = LoggerStep /\ _logger (impl s) = AtLoopHead
  /\ _log (impl s) = false /\ _queue (impl s) = [].
Proof.
  intros H N X. exec_cases H; subst; cbn in X; try congruence; try discriminate X.
  all: try (exfalso; apply N; unfold log_gate in *;
            repeat match goal with
                   | E : match ?x with _ => _ end = _ |- _ => destruct x eqn:?
                   | E : Some _ = Some _ |- _ => injection E as <-
                   | E : Some _ = None |- _ => discriminate E
                   | E : None = Some _ |- _ => discriminate E
                   end; cbn in *; congruence).
  all: match goal with E : _ && _ = true |- _ => apply andb_prop in E; destruct E as [Q F] end.
  all: repeat split; auto.
  all: solve [ destruct (_log (impl s)); [discriminate F | reflexivity]
             | destruct (_queue (impl s)); [reflexivity | discriminate Q] ].
Qed.

(** Once the destructor has started, the registry does not change, and a
    pending message stays pending until the worker pops it and writes it. *)
Lemma exec_pending (e : queue_element_t) (a : Action) (s s' : System) :
  exec a s = Some s' ->
  life s <> Alive ->
  pending e s ->
  life s' <> Alive
  /\ _dests (impl s') = _dests (impl s)
  /\ (pending e s'
      \/ trace s' = (trace s ++ Popped e :: write_all 0 e (_dests (impl s)))%list).
Proof.
  intros H L [N P]. unfold pending, localQueue_of in *.
  exec_cases H; subst; try congruence; cbn [impl life trace] in *;
    unfold set_logger, set_queue in *;
    cbn [_logger _queue _dests] in *;
    repeat match goal with E : ?x = _, H : context [?x] |- _ => rewrite E in H end;
    (split; [congruence |]); (split; [reflexivity |]).
  all: try (left; split; [congruence | tauto]).
  all: try (exfalso; destruct P as [P | P]; [| exact P];
            destruct (_queue (impl s)); [exact P | discriminate]).
  - left. split; [exact N |]. destruct P as [P | P]; [left | right; exact P].
    apply in_push. right. exact P.
  - destruct P as [P | [<- | P]].
    + left. split; [discriminate |]. left. exact P.
    + right. reflexivity.
    + left. split; [discriminate |]. right. exact P.
Qed.

Lemma exec_after_stop (a : Action) (s s' : System) :
  exec a s = Some s' ->
  life s <> Alive ->
  life s' <> Alive /\ _dests (impl s') = _dests (impl s).
Proof.
  intros H L. exec_cases H; subst; try congruence; cbn [impl life];
    (split; [congruence | reflexivity]).
Qed.

Lemma run_pending (e : queue_element_t) (acts : list Action) (s s' : System) :
  run acts s = Some s' ->
  life s <> Alive ->
  pending e s ->
  exists mid,
    trace s' = (trace s ++ mid)%list
    /\ (pending e s' \/ dispatched_in e (_dests (impl s)) mid).
Proof.
  intros R L P.
  apply (run_invariant
           (fun x => life x <> Alive /\ _dests (impl x) = _dests (impl s)
                     /\ exists mid, trace x = (trace s ++ mid)%list
                                    /\ (pending e x \/ dispatched_in e (_dests (impl s)) mid))
           ) with (s' := s') (acts := acts) (s := s); [| | exact R].
  - clear. intros a x x' (L & D & mid & T & C) E.
    destruct (exec_after_stop _ _ _ E L) as [L' D'].
    split; [exact L' |]. split; [congruence |].
    destruct C as [P | (pre & post & ->)].
    + destruct (exec_pending e _ _ _ E L P) as (_ & _ & [P' | T']).
      * destruct (exec_trace_grows _ _ _ E) as [evs Tx].
        exists (mid ++ evs)%list. split; [rewrite Tx, T; symmetry; apply app_assoc |].
        left. exact P'.
      * exists (mid ++ Popped e :: write_all 0 e (_dests (impl s)) ++ [])%list.
        split.
        -- rewrite T', T, D, app_nil_r. symmetry. apply app_assoc.
        -- right. exists mid, []. reflexivity.
    + destruct (exec_trace_grows _ _ _ E) as [evs Tx].
      exists ((pre ++ Popped e :: write_all 0 e (_dests (impl s)) ++ post) ++ evs)%list.
      split; [rewrite Tx, T; symmetry; apply app_assoc |].
      right. exists pre, (post ++ evs)%list.
      rewrite <- !app_assoc. cbn [app]. rewrite <- !app_assoc. reflexivity.
  - split; [exact L |]. split; [reflexivity |].
    exists []. split; [rewrite app_nil_r; reflexivity | left; exact P].
Qed.

Lemma exec_worker_runs (a : Action) (s s' : System) :
  worker_runs s -> exec a s = Some s' -> worker_runs s'.
Proof.
  intros [A W] H. unfold worker_runs.
  destruct (Bool.bool_dec (_log (impl s')) true) as [T | F].
  - assert (T0 : _log (impl s) = true /\ (life s' = Alive -> life s = Alive)).
    { clear A W. exec_cases H; subst; cbn in T |- *; unfold log_gate in *;
        repeat match goal with
               | E : match ?x with _ => _ end = _ |- _ => destruct x eqn:?
               | E : Some _ = Some _ |- _ => injection E as <-
               | E : Some _ = None |- _ => discriminate E
               | E : None = Some _ |- _ => discriminate E
               end; cbn in *; try discriminate; split; congruence. }
    destruct T0 as [T0 _]. split; [intros _; exact T |].
    intros _ X. destruct (worker_exit_condition _ _ _ H (W T0) X) as (_ & _ & F & _).
    congruence.
  - split; [| intros T; congruence].
    intros L'. exfalso. apply F. clear F W.
    exec_cases H; subst; cbn in L' |- *; try discriminate L'; unfold log_gate in *;
      repeat match goal with
             | E : match ?x with _ => _ end = _ |- _ => destruct x eqn:?
             | E : Some _ = Some _ |- _ => injection E as <-
             | E : Some _ = None |- _ => discriminate E
             | E : None = Some _ |- _ => discriminate E
             end; cbn in *; try discriminate; auto.
Qed.

Lemma reachable_worker_runs (globalThreshold_ : Priority) (category_ : string)
    (acts : list Action) (s : System) :
  run acts (boot globalThreshold_ category_) = Some s -> worker_runs s.
Proof.
  apply (run_invariant worker_runs exec_worker_runs).
  split; [reflexivity | discriminate].
Qed.

(** The worker finishes the batch it holds and is back at the head of its
    loop, the queue untouched. *)
Lemma worker_finishes_batch (localQueue : priority_queue_t) (s : System) :
  life s = Destructing ->
  _logger (impl s) = Dispatching localQueue ->
  exists s',
    run (repeat LoggerStep (S (List.length localQueue))) s = Some s'
    /\ life s' = Destructing
    /\ _logger (impl s') = AtLoopHead
    /\ _queue (impl s') = _queue (impl s)
    /\ _log (impl s') = _log (impl s).
Proof.
  revert s. induction localQueue as [| msg rest IH]; intros s L D.
  - cbn [List.length repeat run]. unfold exec, exec_logger. rewrite L, D.
    eexists. split; [reflexivity |]. cbn. auto.
  - cbn [List.length repeat run]. unfold exec at 1, exec_logger at 1. rewrite L, D.
    destruct (IH (mkSystem (set_logger (Dispatching rest) (impl s)) (detached s)
                    Destructing
                    (trace s ++ Popped msg :: write_all 0 msg (_dests (impl s)))))
      as (s' & R & L' & H' & Q' & G'); [reflexivity | reflexivity |].
    exists s'. split; [exact R |]. auto.
Qed.

(** Left to run once the flag is down, the worker leaves its loop: it
    writes the batch it holds, swaps out what is queued, writes that, and
    exits at the next check. *)
Lemma worker_alone_exits (s : System) :
  life s = Destructing ->
  _log (impl s) = false ->
  _logger (impl s) <> Exited ->
  exists n s',
    run (repeat LoggerStep n) s = Some s' /\ _logger (impl s') = Exited.
Proof.
  assert (Head : forall x, life x = Destructing -> _log (impl x) = false ->
                           _logger (impl x) = AtLoopHead -> _queue (impl x) = [] ->
                           exists x', run [LoggerStep] x = Some x'
                                      /\ _logger (impl x') = Exited).
  { intros x L F H Q. cbn [run]. unfold exec, exec_logger. rewrite L, H, Q, F.
    eexists. split; reflexivity. }
  assert (Batch : forall x lq, life x = Destructing -> _log (impl x) = false ->
                               _logger (impl x) = Dispatching lq -> _queue (impl x) = [] ->
                               exists n x', run (repeat LoggerStep n) x = Some x'
                                            /\ _logger (impl x') = Exited).
  { intros x lq L F D Q.
    destruct (worker_finishes_batch lq x L D) as (m & R & Lm & Hm & Qm & Fm).
    destruct (Head m Lm (eq_trans Fm F) Hm (eq_trans Qm Q)) as (x' & R' & X).
    exists (S (List.length lq) + 1)%nat, x'. split; [| exact X].
    rewrite repeat_app, run_app, R. exact R'. }
  assert (Swap : forall x, life x = Destructing -> _log (impl x) = false ->
                           exists n x',
                             run (repeat LoggerStep n)
                                 (with_impl (fun i => set_logger (Dispatching (_queue i))
                                                        (set_queue [] i)) x)
                             = Some x' /\ _logger (impl x') = Exited).
  { intros x L F. eapply Batch; [exact L | exact F | reflexivity | reflexivity]. }
  intros L F N. destruct (_logger (impl s)) as [| | lq |] eqn:W.
  - destruct (_queue (impl s)) as [| e q] eqn:Q.
    + destruct (Head s L F W Q) as (x' & R & X). exists 1%nat, x'. auto.
    + destruct (Swap s L F) as (n & x' & R & X).
      exists (S n), x'. split; [| exact X].
      cbn [repeat run]. unfold exec, exec_logger. rewrite L, W, Q. cbn [empty andb].
      exact R.
  - destruct (Swap s L F) as (n & x' & R & X).
    exists (S n), x'. split; [| exact X].
    cbn [repeat run]. unfold exec, exec_logger. rewrite L, W. exact R.
  - destruct (worker_finishes_batch lq s L W) as (m & R & Lm & Hm & Qm & Fm).
    assert (Fm' : _log (impl m) = false) by congruence.
    destruct (_queue (impl m)) as [| e q] eqn:Q.
    + destruct (Head m Lm Fm' Hm Q) as (x' & R' & X).
      exists (S (List.length lq) + 1)%nat, x'. split; [| exact X].
      rewrite repeat_app, run_app, R. exact R'.
    + destruct (Swap m Lm Fm') as (n & x' & R' & X).
      exists (S (List.length lq) + S n)%nat, x'. split; [| exact X].
      rewrite repeat_app, run_app, R.
      cbn [repeat run]. unfold exec, exec_logger. rewrite Lm, Hm, Q. cbn [empty andb].
      exact R'.
  - congruence.
Qed.

Lemma write_order_cons (e : queue_element_t) (target : LogTarget)
    (rest : list LogTarget) :
  write_order e (target :: rest)
  = ((if _enabled target && negb (pri_lt (fst (snd e)) (_threshold target))
         && has_dest target
      then [0%nat] else [])
     ++ map S (write_order e rest))%list.
Proof.
  unfold write_order. cbn [List.length seq filter nth_error].
  rewrite filter_seq_shift. cbn [nth_error].
  destruct (_ && _); reflexivity.
Qed.

(** The writes of one message are one [write] of its line for each of the
    entries of [write_order], in that order. *)
Lemma write_all_order (e : queue_element_t) (dests : list LogTarget) (k : nat) :
  write_all k e dests
  = map (fun n => Write (k + n) (snd (snd e))) (write_order e dests).
Proof.
  revert k. induction dests as [| target rest IH]; intros k; cbn [write_all].
  - reflexivity.
  - rewrite write_order_cons, map_app, map_map, IH.
    f_equal.
    + destruct (_ && _); cbn [map]; [rewrite Nat.add_0_r |]; reflexivity.
    + apply map_ext. intros n. rewrite Nat.add_succ_r. reflexivity.
Qed.

(** C5: the worker leaves its loop only in a step taken at the head of the
    loop with the shutdown flag set ([_log] false) and the queue empty; and
    in every run, each message that is in the queue at the moment the
    destructor sets the flag has, by the time the worker has left the loop,
    been popped and then written: its line to every registry entry that is
    enabled, whose threshold its priority is not below and that holds a
    destination, in registry order.  Messages still held by a detached
    thread at that moment are not in the queue and are not covered. *)
Theorem worker_drains_before_exit :
  (forall (a : Action) (s s' : System),
      exec a s = Some s' ->
      _logger (impl s) <> Exited ->
      _logger (impl s') = Exited ->
      a = LoggerStep /\ _log (impl s) = false /\ _queue (impl s) = [])
  /\ (forall (globalThreshold_ : Priority) (category_ : string)
             (before after : list Action) (s0 s1 s2 : System),
         run before (boot globalThreshold_ category_) = Some s0 ->
         exec DtorStop s0 = Some s1 ->
         run after s1 = Some s2 ->
         _logger (impl s2) = Exited ->
         forall e, In e (_queue (impl s1)) ->
                   exists pre post,
                     trace s2
                     = (trace s1 ++ pre
                        ++ Popped e
                           :: map (fun n => Write n (snd (snd e)))
                                  (write_order e (_dests (impl s1)))
                        ++ post)%list).
Proof.
  split.
  - intros a s s' H N X.
    destruct (worker_exit_condition _ _ _ H N X) as (-> & _ & F & Q). auto.
  - intros gt cat before after s0 s1 s2 R0 D R X e Hin.
    assert (W : worker_runs s0) by (eapply reachable_worker_runs; eauto).
    assert (S1 : life s0 = Alive /\ s1 = mkSystem (set_log false (impl s0)) (detached s0)
                                                  Destructing (trace s0)).
    { clear - D. exec_cases D. split; [auto | reflexivity]. }
    destruct S1 as [A ->]. destruct W as [Wa Wl]. cbn [impl _queue set_log] in Hin.
    assert (P : pending e (mkSystem (set_log false (impl s0)) (detached s0)
                             Destructing (trace s0))).
    { split; [exact (Wl (Wa A)) | left; exact Hin]. }
    destruct (run_pending e _ _ _ R (fun Hl => ltac:(discriminate Hl)) P)
      as (mid & T & [[N _] | (pre & post & ->)]).
    + contradiction.
    + exists pre, post. rewrite T, (write_all_order e _ 0). reflexivity.
Qed.

Lemma worker_drains_before_exit_witness :
  In second_message (_queue (impl stopped))
  /\ exists pre post,
       trace drained
       = (trace stopped ++ pre
          ++ Popped second_message
             :: [Write 0 ("Jan  1 00:00:00.6 1 global f Error: b (t.cpp:2)" ++ newline)]
          ++ post)%list.
Proof.
  assert (Q : In second_message (_queue (impl stopped))).
  { vm_compute. right. left. reflexivity. }
  split; [exact Q |].
  apply (proj2 worker_drains_before_exit Info "global" stop_with_queued_messages
               drain_and_exit at_stop stopped drained).
  - vm_compute. reflexivity.
  - vm_compute. reflexivity.
  - vm_compute. reflexivity.
  - vm_compute. reflexivity.
  - exact Q.
Defined.

(** ** Where a written line comes from *)

Lemma in_replace_nth {A : Type} (x y : A) (k : nat) (l : list A) :
  In x (replace_nth k y l) -> x = y \/ In x l.
Proof.
  revert k. induction l as [| z rest IH]; intros k H; destruct k; cbn in H |- *;
    try tauto.
  - destruct H as [<- | H]; auto.
  - destruct H as [<- | H]; auto. destruct (IH _ H); auto.
Qed.

Lemma in_remove_nth {A : Type} (x : A) (k : nat) (l : list A) :
  In x (remove_nth k l) -> In x l.
Proof.
  revert k. induction l as [| z rest IH]; intros k H; destruct k; cbn in H |- *;
    try tauto.
  destruct H as [<- | H]; eauto.
Qed.

(** A detached thread is there because it was there, or because a [log]
    call that passed the gate has just started it, or because it has just
    formatted the line of its call under the current category. *)
Lemma exec_detached_sources (a : Action) (s s' : System) (d : Detached) :
  exec a s = Some s' ->
  In d (detached s') ->
  In d (detached s)
  \/ (exists c, a = CallLog c /\ d = Spawned c
                /\ pri_lt (pri_ c) (_globalThreshold (impl s)) = false)
  \/ (exists c line, In (Spawned c) (detached s)
                     /\ format (_category (impl s)) c = Ok line
                     /\ d = Formatted (now c, (pri_ c, line))).
Proof.
  intros H Hin. exec_cases H; subst; cbn [detached] in Hin; auto.
  - apply in_app_or in Hin. destruct Hin as [Hin | [<- | []]]; [auto |].
    right. left. eexists. repeat split.
    unfold log_gate in *. destruct (pri_lt _ _); [discriminate | reflexivity].
  - apply in_replace_nth in Hin. destruct Hin as [-> | Hin]; [| auto].
    right. right. do 2 eexists. split; [eapply nth_error_In; eassumption |].
    split; [eassumption | reflexivity].
  - apply in_replace_nth in Hin. destruct Hin as [-> | Hin]; [| auto].
    right. right. do 2 eexists. split; [eapply nth_error_In; eassumption |].
    split; [eassumption | reflexivity].
  - left. eapply in_remove_nth; eassumption.
  - left. eapply in_remove_nth; eassumption.
Qed.

(** A message waits in the queue or in the worker's batch because it did
    so before, or because a detached thread has just pushed it. *)
Lemma exec_queue_sources (a : Action) (s s' : System) (e : queue_element_t) :
  exec a s = Some s' ->
  In e (_queue (impl s')) \/ In e (localQueue_of s') ->
  In e (_queue (impl s)) \/ In e (localQueue_of s) \/ In (Formatted e) (detached s).
Proof.
  intros H Hin. unfold localQueue_of in *.
  exec_cases H; subst; cbn [impl] in Hin;
    unfold set_logger, set_queue, set_category, set_globalThreshold, set_dests,
           set_log, set_errorThreshold, set_verifCB, addDest, addDest_threshold,
           permitDest, threshold_dest, set_dests, log_gate, set_requestedErrors in *;
    repeat match goal with
           | E : match ?x with _ => _ end = _ |- _ => destruct x eqn:?
           | E : Some _ = Some _ |- _ => injection E as <-
           | E : Some _ = None |- _ => discriminate E
           | E : None = Some _ |- _ => discriminate E
           end;
    cbn [_logger _queue] in Hin;
    repeat match goal with E : ?x = _ |- context [?x] => rewrite E end;
    repeat match goal with E : ?x = _, H : context [?x] |- _ => rewrite E in H end;
    try tauto.
  all: try (destruct Hin as [Hin | Hin]; [apply in_push in Hin; destruct Hin as [-> | Hin] |];
            [ right; right; eapply nth_error_In; eassumption | tauto | tauto ]).
  all: try (cbn [In] in *; tauto).
Qed.

(** A pop is in the trace because it was, or because the worker has just
    popped the head of its batch; a write is in the trace because it was,
    or because it belongs to the message just popped. *)
Lemma exec_trace_sources (a : Action) (s s' : System) :
  exec a s = Some s' ->
  (forall e, In (Popped e) (trace s') ->
             In (Popped e) (trace s) \/ In e (localQueue_of s))
  /\ (forall n line, In (Write n line) (trace s') ->
                     In (Write n line) (trace s)
                     \/ exists e, In (Popped e) (trace s') /\ snd (snd e) = line).
Proof.
  intros H.
  destruct (exec_events _ _ _ H) as [[T _] | [(msg & lq & _ & L & ->) | [_ ->]]];
    cbn [trace].
  - rewrite T. auto.
  - unfold localQueue_of. rewrite L. split.
    + intros e Hin. apply in_app_or in Hin. destruct Hin as [Hin | [[= ->] | Hin]].
      * auto.
      * right. left. reflexivity.
      * apply in_write_all in Hin. destruct Hin as (k & t & _ & Hin & _). discriminate.
    + intros n line Hin. apply in_app_or in Hin. destruct Hin as [Hin | [Hin | Hin]].
      * auto.
      * discriminate.
      * apply in_write_all in Hin. destruct Hin as (k & t & _ & [= _ ->] & _).
        right. exists msg. split; [| reflexivity].
        apply in_or_app. right. left. reflexivity.
  - assert (No : forall ev,
               In ev (match _verifCB (impl s) with
                      | Some cb => flush_all 0 (_dests (impl s))
                                   ++ [Verify cb (_requestedErrors (impl s))]
                      | None => []
                      end) ->
               (forall e, ev <> Popped e) /\ (forall n line, ev <> Write n line)).
    { intros ev Hin. destruct (_verifCB (impl s)); [| destruct Hin].
      apply in_app_or in Hin. destruct Hin as [Hin | [<- | []]].
      - rewrite flush_all_order in Hin. apply in_map_iff in Hin.
        destruct Hin as (x & <- & _). split; intros; discriminate.
      - split; intros; discriminate. }
    split.
    + intros e Hin. apply in_app_or in Hin. destruct Hin as [Hin | Hin]; [auto |].
      destruct (No _ Hin) as [N _]. exfalso. eapply N; reflexivity.
    + intros n line Hin. apply in_app_or in Hin. destruct Hin as [Hin | Hin]; [auto |].
      destruct (No _ Hin) as [_ N]. exfalso. eapply N; reflexivity.
Qed.

Section Provenance.
(** The state the schedule starts in. *)
Variable s0 : System.

Lemma accepted_snoc (acts : list Action) (a : Action) (c : LogCall) :
  accepted s0 acts c -> accepted s0 (acts ++ [a]) c.
Proof.
  intros (before & after & m & -> & R & G).
  exists before, (after ++ [a])%list, m. split; [| auto].
  rewrite <- app_assoc. reflexivity.
Qed.

Lemma record_of_snoc (acts : list Action) (a : Action) (e : queue_element_t) :
  record_of s0 acts e -> record_of s0 (acts ++ [a]) e.
Proof.
  intros (c & category & line & A & F & E).
  exists c, category, line. split; [apply accepted_snoc; exact A | auto].
Qed.

Lemma provenance_step (acts : list Action) (a : Action) (s s' : System) :
  run acts s0 = Some s ->
  provenance s0 acts s ->
  exec a s = Some s' ->
  provenance s0 (acts ++ [a]) s'.
Proof.
  intros R (Ps & Pf & Pq & Pp & Pw) E.
  assert (Ps' : forall c, In (Spawned c) (detached s') -> accepted s0 (acts ++ [a]) c).
  { intros c Hin.
    destruct (exec_detached_sources _ _ _ _ E Hin)
      as [Old | [(c' & -> & [= <-] & G) | (c' & line & _ & _ & D)]].
    - apply accepted_snoc, Ps, Old.
    - exists acts, [], s. auto.
    - discriminate. }
  assert (Pf' : forall e, In (Formatted e) (detached s') -> record_of s0 (acts ++ [a]) e).
  { intros e Hin.
    destruct (exec_detached_sources _ _ _ _ E Hin)
      as [Old | [(c' & _ & D & _) | (c' & line & Sp & F & [= ->])]].
    - apply record_of_snoc, Pf, Old.
    - discriminate.
    - exists c', (_category (impl s)), line.
      split; [apply accepted_snoc, Ps, Sp | auto]. }
  assert (Pq' : forall e, In e (_queue (impl s')) \/ In e (localQueue_of s') ->
                          record_of s0 (acts ++ [a]) e).
  { intros e Hin. apply record_of_snoc.
    destruct (exec_queue_sources _ _ _ _ E Hin) as [Q | [L | D]]; auto. }
  destruct (exec_trace_sources _ _ _ E) as [Tp Tw].
  repeat split; auto.
  - intros e Hin. apply record_of_snoc. destruct (Tp _ Hin); auto.
  - intros n line Hin. destruct (Tw _ _ Hin) as [Old | New]; [| exact New].
    destruct (Pw _ _ Old) as (e & Hp & <-). exists e. split; [| reflexivity].
    destruct (exec_trace_grows _ _ _ E) as [evs ->]. apply in_or_app. auto.
Qed.
End Provenance.

(** In every state a logger reaches from its construction, what waits,
    what was popped and what was written comes from accepted calls. *)
Lemma reachable_provenance (globalThreshold_ : Priority) (category_ : string)
    (acts : list Action) (s : System) :
  run acts (boot globalThreshold_ category_) = Some s ->
  provenance (boot globalThreshold_ category_) acts s.
Proof.
  revert s. induction acts as [| a acts IH] using rev_ind; intros s R.
  - injection R as <-. unfold provenance, localQueue_of. cbn.
    repeat split; intros; tauto.
  - apply run_snoc in R. destruct R as (m & R & E).
    eapply provenance_step; eauto.
Qed.

(** ** The layout of a line *)

Lemma string_app_assoc (a b c : string) : (a ++ b) ++ c = a ++ b ++ c.
Proof.
  induction a as [| ch a IH]; cbn [append]; [reflexivity | rewrite IH; reflexivity].
Qed.

Lemma put_Priority_Ok (lhs_ out : Ostream) (p : Priority) :
  put_Priority lhs_ p = Ok out ->
  exists name, In (p, name) priority_names /\ out = lhs_ ++ name.
Proof.
  destruct p as [v]. unfold put_Priority, priority_names, Debug, Info, Warning, Error,
    Critical. cbn [underlying]. intros H.
  destruct v as [| q | q]; [| | discriminate H].
  - injection H as <-. exists "Debug". split; [left; reflexivity | reflexivity].
  - destruct q as [[[|q|]|[q|q|]|]|[[q|q|]|[q|q|]|]|]; try discriminate H;
      injection H as <-; eexists; (split; [| reflexivity]); cbn; tauto.
Qed.

(** The text [format] builds, field by field. *)
Lemma format_layout (category line : string) (c : LogCall) :
  format category c = Ok line ->
  exists t name,
    gmtime_r (Z.quot (now c) 1000000000) = Some t
    /\ In (pri_ c, name) priority_names
    /\ line = (put_time t ++ "." ++ show_Z (Z.rem (now c) 1000000000))
              ++ " " ++ show_Z (threadId_ c)
              ++ " " ++ category
              ++ " " ++ function_ c
              ++ " " ++ name
              ++ ": " ++ message_ c
              ++ " (" ++ file_ c ++ ":" ++ show_Z (line_ c) ++ ")"
              ++ newline.
Proof.
  unfold format. destruct (gmtime_r (Z.quot (now c) 1000000000)) as [t |]; [| discriminate].
  unfold bind.
  destruct (put_Priority _ (pri_ c)) as [out |] eqn:P; [| discriminate].
  intros [= <-]. apply put_Priority_Ok in P. destruct P as (name & Hn & ->).
  exists t, name. split; [reflexivity |]. split; [exact Hn |].
  replace (now c - Z.quot (now c) 1000000000 * 1000 * 1000 * 1000)
    with (Z.rem (now c) 1000000000).
  2: { rewrite Z.rem_eq by discriminate. lia. }
  rewrite !string_app_assoc. reflexivity.
Qed.



(** ** The dispatch condition *)

(** A call below the global threshold changes nothing: no thread is
    started, so no message of it ever exists. *)
Lemma rejected_call_is_dropped (c : LogCall) (s s' : System) :
  exec (CallLog c) s = Some s' ->
  pri_lt (pri_ c) (_globalThreshold (impl s)) = true ->
  s' = s.
Proof.
  intros H G. unfold exec, exec_call, log_gate in H. rewrite G in H.
  destruct (life s); congruence.
Qed.

(** C2 (amended): when the worker pops a message, its line is written to a
    registry entry exactly when, at that moment, the entry is enabled, the
    priority of the message is not below the threshold of the entry and the
    entry holds a destination (its pointer is not null), the message being
    that of a [log] call whose priority was not below the global threshold
    when the call was made. *)
Theorem dispatch_condition
    (globalThreshold_ : Priority) (category_ : string) (acts : list Action)
    (s s' : System) (msg : queue_element_t) (localQueue : priority_queue_t)
    (n : nat) (target : LogTarget) :
  run acts (boot globalThreshold_ category_) = Some s ->
  _logger (impl s) = Dispatching (msg :: localQueue) ->
  exec LoggerStep s = Some s' ->
  nth_error (_dests (impl s)) n = Some target ->
  exists evs,
    trace s' = (trace s ++ Popped msg :: evs)%list
    /\ (In (Write n (snd (snd msg))) evs <->
        _enabled target = true
        /\ pri_lt (fst (snd msg)) (_threshold target) = false
        /\ has_dest target = true
        /\ exists c, accepted (boot globalThreshold_ category_) acts c
                     /\ now c = fst msg /\ pri_ c = fst (snd msg)).
Proof.
  intros R L E Hn.
  assert (A : exists c, accepted (boot globalThreshold_ category_) acts c
                        /\ now c = fst msg /\ pri_ c = fst (snd msg)).
  { destruct (reachable_provenance _ _ _ _ R) as (_ & _ & Pq & _).
    destruct (Pq msg) as (c & category & line & Acc & _ & ->).
    - right. unfold localQueue_of. rewrite L. left. reflexivity.
    - exists c. auto. }
  exists (write_all 0 msg (_dests (impl s))). split.
  - unfold exec, exec_logger in E. rewrite L in E.
    destruct (life s); try discriminate E; injection E as <-; reflexivity.
  - rewrite in_write_all. split.
    + intros (k & t & Hk & [= ->] & He & Hp & Hd). cbn [Nat.add] in Hn.
      assert (t = target) by congruence. subst t. auto.
    + intros (He & Hp & Hd & _). exists n, target. auto.
Qed.

Lemma dispatch_condition_witness :
  exists evs,
    trace after_pop = (trace before_pop ++ Popped (8, (Info, note_line)) :: evs)%list
    /\ (In (Write 1 note_line) evs <->
        true = true
        /\ pri_lt Info Info = false
        /\ true = true
        /\ exists c, accepted (boot Info "global") null_entry_schedule c
                     /\ now c = 8 /\ pri_ c = Info).
Proof.
  apply (dispatch_condition Info "global" null_entry_schedule before_pop after_pop
           (8, (Info, note_line)) [] 1
           (mkLogTarget "out" (Some StdOutDest) Info true)).
  - vm_compute. reflexivity.
  - vm_compute. reflexivity.
  - vm_compute. reflexivity.
  - vm_compute. reflexivity.
Defined.

(** C2 as stated fails: the entry "null" is enabled, the priority of the
    message is not below its threshold and was not below the global
    threshold at the call, and the line is not written to it. *)
Lemma null_destination_is_not_written :
  run null_entry_schedule (boot Info "global") = Some before_pop
  /\ _logger (impl before_pop) = Dispatching [(8, (Info, note_line))]
  /\ exec LoggerStep before_pop = Some after_pop
  /\ nth_error (_dests (impl before_pop)) 0 = Some (mkLogTarget "null" None Info true)
  /\ ~ (In (Write 0 note_line) (trace after_pop) <->
        _enabled (mkLogTarget "null" None Info true) = true
        /\ pri_lt Info (_threshold (mkLogTarget "null" None Info true)) = false
        /\ pri_lt (pri_ note) (_globalThreshold (impl (boot Info "global"))) = false).
Proof.
  split; [vm_compute; reflexivity |]. split; [vm_compute; reflexivity |].
  split; [vm_compute; reflexivity |]. split; [vm_compute; reflexivity |].
  intros [_ H].
  assert (W : In (Write 0 note_line) (trace after_pop)).
  { apply H. repeat split. }
  vm_compute in W. destruct W as [W | [W | []]]; discriminate W.
Qed.

(** ** The order of the lines *)

Lemma element_lt_time (a b : queue_element_t) :
  if element_lt a b then fst a <= fst b else fst b <= fst a.
Proof.
  unfold element_lt.
  destruct (Z.ltb_spec (fst a) (fst b)) as [H | H]; cbn [orb]; [lia |].
  destruct (Z.ltb_spec (fst b) (fst a)) as [G | G]; cbn [negb andb]; [lia |].
  destruct (inner_lt (snd a) (snd b)); lia.
Qed.

Lemma push_time_sorted (e : queue_element_t) (q : priority_queue_t) :
  time_sorted q -> time_sorted (push e q).
Proof.
  unfold time_sorted. induction 1 as [| x rest S IH F]; cbn [push].
  - constructor; constructor.
  - pose proof (element_lt_time e x) as T. destruct (element_lt e x).
    + constructor; [constructor; assumption |].
      constructor; [exact T |].
      rewrite Forall_forall in F |- *. intros y Hy. exact (Z.le_trans _ _ _ T (F y Hy)).
    + constructor; [exact IH |].
      rewrite Forall_forall in F |- *. intros y Hy.
      apply in_push in Hy. destruct Hy as [-> | Hy]; [exact T | exact (F y Hy)].
Qed.

Lemma exec_time_sorted (a : Action) (s s' : System) :
  time_sorted (_queue (impl s)) /\ time_sorted (localQueue_of s) ->
  exec a s = Some s' ->
  time_sorted (_queue (impl s')) /\ time_sorted (localQueue_of s').
Proof.
  intros [Q L] H. unfold localQueue_of in *.
  assert (Nil : time_sorted []) by constructor.
  exec_cases H; subst; cbn [impl];
    unfold set_logger, set_queue, set_category, set_globalThreshold, set_dests,
           set_log, set_errorThreshold, set_verifCB, addDest, addDest_threshold,
           permitDest, threshold_dest, set_dests, log_gate, set_requestedErrors in *;
    repeat match goal with
           | E : match ?x with _ => _ end = _ |- _ => destruct x eqn:?
           | E : Some _ = Some _ |- _ => injection E as <-
           | E : Some _ = None |- _ => discriminate E
           | E : None = Some _ |- _ => discriminate E
           end;
    cbn [_logger _queue];
    repeat match goal with E : ?x = _ |- context [?x] => rewrite E end;
    repeat match goal with E : ?x = _, H : context [?x] |- _ => rewrite E in H end;
    try (split; assumption);
    try (split; [apply push_time_sorted; assumption | assumption]).
  all: split; try assumption.
  all: try (rewrite <- ?Heqp; assumption).
  all: inversion L; assumption.
Qed.

(** In every state a logger reaches, the queue and the batch of the worker
    are in ascending order of time stamps. *)
Lemma reachable_time_sorted (globalThreshold_ : Priority) (category_ : string)
    (acts : list Action) (s : System) :
  run acts (boot globalThreshold_ category_) = Some s ->
  time_sorted (_queue (impl s)) /\ time_sorted (localQueue_of s).
Proof.
  apply (run_invariant
           (fun x => time_sorted (_queue (impl x)) /\ time_sorted (localQueue_of x))).
  - intros a x x' I E. eapply exec_time_sorted; eauto.
  - split; constructor.
Qed.

(** C1 (the code at the failing schedule): both calls pass the global
    threshold and the first has the earlier time stamp, yet both
    destinations receive the line of the second call before the line of
    the first: a message pushed after the worker has swapped out a batch is
    written after that batch whatever its time stamp. *)
Theorem late_insert_written_out_of_order :
  now first_call < now second_call
  /\ format "global" first_call = Ok first_line
  /\ format "global" second_call = Ok second_line
  /\ exists s,
       run late_insert (boot Info "global") = Some s
       /\ life s = Destroyed
       /\ written_to 0 (trace s) = [second_line; first_line]
       /\ written_to 1 (trace s) = [second_line; first_line].
Proof.
  split; [reflexivity |]. split; [vm_compute; reflexivity |].
  split; [vm_compute; reflexivity |].
  exists after_late_insert.
  split; [vm_compute; reflexivity |]. split; [vm_compute; reflexivity |].
  split; vm_compute; reflexivity.
Qed.

(** * Further properties *)

(** ** Lookups and updates of the registry *)

(** What [update_first] does to the entry at one index: it leaves it, or,
    when the entry is the first of the name, replaces it by its image. *)
Lemma update_first_nth (name_ : string) (f : LogTarget -> LogTarget)
    (dests : list LogTarget) (n : nat) (t : LogTarget) :
  nth_error dests n = Some t ->
  nth_error (update_first name_ f dests) n = Some t
  \/ (nth_error (update_first name_ f dests) n = Some (f t)
      /\ _name t = name_
      /\ forall k tk, (k < n)%nat -> nth_error dests k = Some tk -> _name tk <> name_).
Proof.
  revert n. induction dests as [| d rest IH]; intros n H; [destruct n; discriminate |].
  cbn [update_first]. destruct (String.eqb_spec name_ (_name d)) as [E | N].
  - destruct n as [| n]; cbn [nth_error] in *.
    + injection H as ->. right. split; [reflexivity |]. split; [auto |].
      intros k tk Hk. inversion Hk.
    + left. exact H.
  - destruct n as [| n]; cbn [nth_error] in *.
    + left. exact H.
    + destruct (IH n H) as [U | (U & Hn & Hb)]; [left; exact U |].
      right. split; [exact U |]. split; [exact Hn |].
      intros k tk Hk Hnth. destruct k as [| k]; cbn [nth_error] in Hnth.
      * injection Hnth as <-. congruence.
      * eapply Hb; [| eassumption]. apply Nat.succ_lt_mono. exact Hk.
Qed.

Lemma update_first_length (name_ : string) (f : LogTarget -> LogTarget)
    (dests : list LogTarget) :
  List.length (update_first name_ f dests) = List.length dests.
Proof.
  induction dests as [| d rest IH]; cbn [update_first]; [reflexivity |].
  destruct (String.eqb name_ (_name d)); cbn [List.length]; [| rewrite IH]; reflexivity.
Qed.

Lemma update_first_absent (name_ : string) (f : LogTarget -> LogTarget)
    (dests : list LogTarget) :
  find_if name_ dests = None -> update_first name_ f dests = dests.
Proof.
  induction dests as [| d rest IH]; cbn [update_first find_if]; [reflexivity |].
  destruct (String.eqb name_ (_name d)); [discriminate |].
  intros H. rewrite (IH H). reflexivity.
Qed.

(** A lookup after an update that keeps names: the entry found is the image
    of the entry found before when the names are the same, and the entry
    found before otherwise. *)
Lemma find_if_update_first (name_ other : string) (f : LogTarget -> LogTarget)
    (dests : list LogTarget) :
  (forall t, _name (f t) = _name t) ->
  find_if other (update_first name_ f dests)
  = if String.eqb other name_ then option_map f (find_if other dests)
    else find_if other dests.
Proof.
  intros K. induction dests as [| d rest IH]; cbn [update_first find_if].
  - destruct (String.eqb other name_); reflexivity.
  - destruct (String.eqb_spec name_ (_name d)) as [E | N]; cbn [find_if].
    + rewrite K. destruct (String.eqb_spec other (_name d)) as [E' | N'].
      * rewrite E, <- E', String.eqb_refl. reflexivity.
      * destruct (String.eqb_spec other name_) as [E'' | _]; [congruence | reflexivity].
    + destruct (String.eqb_spec other (_name d)) as [E' | N'].
      * destruct (String.eqb_spec other name_) as [E'' | _]; [congruence | reflexivity].
      * exact IH.
Qed.

Lemma find_if_app (name_ : string) (xs ys : list LogTarget) :
  find_if name_ (xs ++ ys)
  = match find_if name_ xs with
    | Some t => Some t
    | None => find_if name_ ys
    end.
Proof.
  induction xs as [| x xs IH]; cbn [app find_if]; [reflexivity |].
  destruct (String.eqb name_ (_name x)); [reflexivity | exact IH].
Qed.

Lemma set_dests_same (i : Impl) : set_dests (_dests i) i = i.
Proof. destruct i. reflexivity. Qed.

(** X1: after [permitDest(name_, enable_)], [logging(name_)] answers
    [enable_] when an entry of that name is registered and false when none
    is; the answer for every other name is as before; and for a name that
    is not registered the call changes nothing at all. *)
Theorem permitDest_then_logging (name_ : string) (enable_ : bool) (i : Impl) :
  logging name_ (permitDest name_ enable_ i)
  = match find_if name_ (_dests i) with
    | Some _ => enable_
    | None => false
    end
  /\ (forall other, other <> name_ ->
                    logging other (permitDest name_ enable_ i) = logging other i)
  /\ (find_if name_ (_dests i) = None -> permitDest name_ enable_ i = i).
Proof.
  unfold logging, permitDest.
  assert (K : forall t, _name (with_enabled enable_ t) = _name t) by reflexivity.
  split; [| split].
  - destruct i; cbn [_dests set_dests].
    rewrite (find_if_update_first _ _ _ _ K), String.eqb_refl.
    destruct (find_if name_ _); reflexivity.
  - intros other N. destruct i; cbn [_dests set_dests].
    rewrite (find_if_update_first _ _ _ _ K).
    destruct (String.eqb_spec other name_); [contradiction | reflexivity].
  - intros H. rewrite (update_first_absent _ _ _ H). apply set_dests_same.
Qed.

(** X2: [threshold(destName_, threshold_)] gives the first entry of that
    name the new threshold and leaves its flag, so [logging] answers as
    before for every name; for a name that is not registered the call
    changes nothing at all. *)
Theorem threshold_dest_then_lookup (destName_ : string) (threshold_ : Priority) (i : Impl) :
  find_if destName_ (_dests (threshold_dest destName_ threshold_ i))
  = option_map (with_threshold threshold_) (find_if destName_ (_dests i))
  /\ (forall other, logging other (threshold_dest destName_ threshold_ i) = logging other i)
  /\ (find_if destName_ (_dests i) = None -> threshold_dest destName_ threshold_ i = i).
Proof.
  unfold logging, threshold_dest.
  assert (K : forall t, _name (with_threshold threshold_ t) = _name t) by reflexivity.
  split; [| split].
  - destruct i; cbn [_dests set_dests].
    rewrite (find_if_update_first _ _ _ _ K), String.eqb_refl. reflexivity.
  - intros other. destruct i; cbn [_dests set_dests].
    rewrite (find_if_update_first _ _ _ _ K).
    destruct (String.eqb other destName_); [| reflexivity].
    destruct (find_if other _); reflexivity.
  - intros H. rewrite (update_first_absent _ _ _ H). apply set_dests_same.
Qed.

(** X3: after [addDest], with or without a threshold, [logging(name_)]
    answers true when the name was not registered, and what it answered
    before when it was (the new entry is behind the old one); the answer
    for every other name is as before.  The overload without a threshold
    gives the entry the global threshold of that moment. *)
Theorem addDest_then_logging (name_ : string) (thresHold_ : Priority) (dest_ : ptr_t)
    (i : Impl) :
  logging name_ (addDest name_ dest_ i)
  = match find_if name_ (_dests i) with
    | Some t => _enabled t
    | None => true
    end
  /\ logging name_ (addDest_threshold name_ thresHold_ dest_ i)
     = logging name_ (addDest name_ dest_ i)
  /\ (forall other, other <> name_ ->
                    logging other (addDest name_ dest_ i) = logging other i
                    /\ logging other (addDest_threshold name_ thresHold_ dest_ i)
                       = logging other i)
  /\ addDest name_ dest_ i = addDest_threshold name_ (_globalThreshold i) dest_ i.
Proof.
  unfold logging, addDest, addDest_threshold.
  destruct i; cbn [_dests set_dests _globalThreshold].
  rewrite !find_if_app. cbn [find_if _name]. rewrite String.eqb_refl.
  split; [| split; [| split]].
  - destruct (find_if name_ _); reflexivity.
  - destruct (find_if name_ _); reflexivity.
  - intros other N. rewrite !find_if_app. cbn [find_if _name].
    destruct (String.eqb_spec other name_); [contradiction |].
    destruct (find_if other _); split; reflexivity.
  - reflexivity.
Qed.

(** ** The registry along a run *)

(** An action leaves the registry, or appends one entry, or changes the
    flag or the threshold of the first entry of a name. *)
Lemma exec_registry (a : Action) (s s' : System) :
  exec a s = Some s' ->
  _dests (impl s') = _dests (impl s)
  \/ (exists t, _dests (impl s') = (_dests (impl s) ++ [t])%list)
  \/ (exists name_ enable_,
        a = CallPermitDest name_ enable_
        /\ _dests (impl s') = update_first name_ (with_enabled enable_) (_dests (impl s)))
  \/ (exists destName_ threshold_,
        a = CallThresholdDest destName_ threshold_
        /\ _dests (impl s')
           = update_first destName_ (with_threshold threshold_) (_dests (impl s))).
Proof.
  intros H. exec_cases H; subst; cbn [impl];
    unfold log_gate, set_requestedErrors in *;
    repeat match goal with
           | E : match ?x with _ => _ end = _ |- _ => destruct x eqn:?
           | E : Some _ = Some _ |- _ => injection E as <-
           | E : Some _ = None |- _ => discriminate E
           | E : None = Some _ |- _ => discriminate E
           end;
    try (left; reflexivity).
  - right. left. eexists. reflexivity.
  - right. left. eexists. reflexivity.
  - right. right. left. do 2 eexists. split; reflexivity.
  - right. right. right. do 2 eexists. split; reflexivity.
Qed.

(** The same, for one index: the entry stays, or its flag is set by a
    [permitDest] of its name, or its threshold by a [threshold] of its
    name, and then no earlier entry has that name. *)
Lemma exec_entry (a : Action) (s s' : System) (n : nat) (t : LogTarget) :
  exec a s = Some s' ->
  nth_error (_dests (impl s)) n = Some t ->
  nth_error (_dests (impl s')) n = Some t
  \/ ((exists enable_, a = CallPermitDest (_name t) enable_
                       /\ nth_error (_dests (impl s')) n = Some (with_enabled enable_ t))
      \/ (exists threshold_, a = CallThresholdDest (_name t) threshold_
                             /\ nth_error (_dests (impl s')) n
                                = Some (with_threshold threshold_ t)))
     /\ forall k tk, (k < n)%nat -> nth_error (_dests (impl s)) k = Some tk ->
                     _name tk <> _name t.
Proof.
  intros E Hn.
  destruct (exec_registry _ _ _ E)
    as [-> | [[u ->] | [(name_ & b & -> & ->) | (name_ & p & -> & ->)]]].
  - left. exact Hn.
  - left. rewrite nth_error_app1; [exact Hn | apply nth_error_Some; congruence].
  - destruct (update_first_nth name_ (with_enabled b) _ _ _ Hn) as [U | (U & <- & B)];
      [left; exact U | right]. split; [left; eauto | exact B].
  - destruct (update_first_nth name_ (with_threshold p) _ _ _ Hn) as [U | (U & <- & B)];
      [left; exact U | right]. split; [right; eauto | exact B].
Qed.

(** X4: entries are never removed, moved or renamed: along every schedule
    the entry at an index stays at that index with its name and its
    destination; only its flag and its threshold can change. *)
Theorem registry_entries_stay (acts : list Action) (s s' : System)
    (n : nat) (t : LogTarget) :
  run acts s = Some s' ->
  nth_error (_dests (impl s)) n = Some t ->
  exists t', nth_error (_dests (impl s')) n = Some t'
             /\ _name t' = _name t /\ _dest t' = _dest t.
Proof.
  intros R H.
  apply (run_invariant
           (fun x => exists t', nth_error (_dests (impl x)) n = Some t'
                                /\ _name t' = _name t /\ _dest t' = _dest t))
    with (acts := acts) (s := s); [| eauto | exact R].
  clear. intros a x x' (t' & Hn & Nm & Dt) E.
  destruct (exec_entry _ _ _ _ _ E Hn) as [U | [[(b & _ & U) | (p & _ & U)] _]].
  - eauto.
  - exists (with_enabled b t'). auto.
  - exists (with_threshold p t'). auto.
Qed.

(** X5: an entry registered under a name that an earlier entry already has
    can never be disabled or given another threshold: along every schedule
    it stays exactly as it is. *)
Theorem shadowed_entry_is_frozen (acts : list Action) (s s' : System)
    (m n : nat) (tm tn : LogTarget) :
  run acts s = Some s' ->
  (m < n)%nat ->
  nth_error (_dests (impl s)) m = Some tm ->
  nth_error (_dests (impl s)) n = Some tn ->
  _name tm = _name tn ->
  nth_error (_dests (impl s')) n = Some tn.
Proof.
  intros R Lt Hm Hn Nm.
  assert (I : exists tm', nth_error (_dests (impl s')) m = Some tm'
                          /\ _name tm' = _name tn
                          /\ nth_error (_dests (impl s')) n = Some tn).
  { apply (run_invariant
             (fun x => exists tm', nth_error (_dests (impl x)) m = Some tm'
                                   /\ _name tm' = _name tn
                                   /\ nth_error (_dests (impl x)) n = Some tn))
      with (acts := acts) (s := s); [| eauto | exact R].
    clear - Lt. intros a x x' (tm' & Hm & Nm & Hn) E.
    destruct (exec_entry _ _ _ _ _ E Hn) as [Un | [_ Before]].
    - destruct (exec_entry _ _ _ _ _ E Hm) as [Um | [[(b & _ & Um) | (p & _ & Um)] _]].
      + eauto.
      + exists (with_enabled b tm'). auto.
      + exists (with_threshold p tm'). auto.
    - exfalso. exact (Before m tm' Lt Hm Nm). }
  destruct I as (_ & _ & _ & I). exact I.
Qed.

(** ** What reaches one destination *)

Lemma written_to_app (n : nat) (xs ys : list Event) :
  written_to n (xs ++ ys) = (written_to n xs ++ written_to n ys)%list.
Proof.
  induction xs as [| x xs IH]; cbn [app written_to]; [reflexivity |].
  destruct x; try exact IH. destruct (Nat.eqb target n); cbn [app]; rewrite IH; reflexivity.
Qed.

Lemma written_to_flush_all (n k : nat) (dests : list LogTarget) :
  written_to n (flush_all k dests) = [].
Proof.
  revert k. induction dests as [| t rest IH]; intros k; cbn [flush_all]; [reflexivity |].
  rewrite written_to_app, IH. destruct (has_dest t); reflexivity.
Qed.

Lemma written_to_write_all_below (n k : nat) (msg : queue_element_t)
    (dests : list LogTarget) :
  (n < k)%nat -> written_to n (write_all k msg dests) = [].
Proof.
  revert k. induction dests as [| t rest IH]; intros k Lt; cbn [write_all]; [reflexivity |].
  rewrite written_to_app, IH by lia.
  destruct (_ && _); cbn [written_to]; [| reflexivity].
  destruct (Nat.eqb_spec k n); [lia | reflexivity].
Qed.

(** Of the writes of one message, the entry at index [n] gets the line when
    it takes the message, and nothing otherwise. *)
Lemma written_to_write_all (n k : nat) (msg : queue_element_t) (dests : list LogTarget) :
  written_to (k + n) (write_all k msg dests)
  = match nth_error dests n with
    | Some t => if takes t msg then [snd (snd msg)] else []
    | None => []
    end.
Proof.
  revert n k. induction dests as [| t rest IH]; intros n k; cbn [write_all].
  - destruct n; reflexivity.
  - rewrite written_to_app. destruct n as [| n]; cbn [nth_error].
    + rewrite Nat.add_0_r, written_to_write_all_below by lia. rewrite app_nil_r.
      unfold takes. destruct (_ && _); cbn [written_to]; [| reflexivity].
      rewrite Nat.eqb_refl. reflexivity.
    + replace (k + S n)%nat with (S k + n)%nat by lia. rewrite IH.
      destruct (_ && _); cbn [written_to app]; [| reflexivity].
      destruct (Nat.eqb_spec k (S k + n)); [lia | reflexivity].
Qed.

(** What one action writes to the destination at index [n]: the line of the
    message the worker pops, when the entry takes it. *)
Lemma exec_written_to (a : Action) (s s' : System) (n : nat) :
  exec a s = Some s' ->
  written_to n (trace s')
  = (written_to n (trace s)
     ++ match a, _logger (impl s), nth_error (_dests (impl s)) n with
        | LoggerStep, Dispatching (msg :: _), Some t =>
            if takes t msg then [snd (snd msg)] else []
        | _, _, _ => []
        end)%list.
Proof.
  intros H.
  destruct (exec_events _ _ _ H) as [[T _] | [(msg & lq & -> & L & ->) | [-> ->]]];
    cbn [trace].
  - rewrite T.
    assert (N : match a, _logger (impl s), nth_error (_dests (impl s)) n with
                | LoggerStep, Dispatching (msg :: _), Some t =>
                    if takes t msg then [snd (snd msg)] else []
                | _, _, _ => []
                end = []).
    { destruct a; try reflexivity.
      destruct (_logger (impl s)) as [| | [| msg lq] |] eqn:L; try reflexivity.
      exfalso. unfold exec, exec_logger in H. rewrite L in H.
      destruct (life s); try discriminate H; injection H as <-; cbn [trace] in T;
        apply (f_equal (@List.length Event)) in T;
        rewrite length_app in T; cbn [List.length] in T; lia. }
    rewrite N, app_nil_r. reflexivity.
  - rewrite L, written_to_app. cbn [written_to].
    rewrite (written_to_write_all n 0). reflexivity.
  - rewrite written_to_app. f_equal.
    destruct (_verifCB (impl s)); [| reflexivity].
    rewrite written_to_app, written_to_flush_all. reflexivity.
Qed.

Lemma run_same_lines (acts : list Action) (s s' : System)
    (i j : nat) (ti tj : LogTarget) :
  run acts s = Some s' ->
  nth_error (_dests (impl s)) i = Some ti ->
  nth_error (_dests (impl s)) j = Some tj ->
  _enabled ti = _enabled tj ->
  _threshold ti = _threshold tj ->
  has_dest ti = has_dest tj ->
  (forall a, In a acts ->
             retargets (_name ti) a = false /\ retargets (_name tj) a = false) ->
  exists new,
    written_to i (trace s') = (written_to i (trace s) ++ new)%list
    /\ written_to j (trace s') = (written_to j (trace s) ++ new)%list.
Proof.
  intros R Hi Hj En Th Hd. revert s R Hi Hj.
  induction acts as [| a acts IH]; intros s R Hi Hj Quiet; cbn [run] in R.
  - injection R as <-. exists []. rewrite !app_nil_r. auto.
  - destruct (exec a s) as [m |] eqn:E; [| discriminate].
    destruct (Quiet a (or_introl eq_refl)) as [Qi Qj].
    assert (Hi' : nth_error (_dests (impl m)) i = Some ti).
    { destruct (exec_entry _ _ _ _ _ E Hi) as [U | [[(b & -> & _) | (p & -> & _)] _]];
        [exact U | |]; cbn [retargets] in Qi; rewrite String.eqb_refl in Qi;
        discriminate Qi. }
    assert (Hj' : nth_error (_dests (impl m)) j = Some tj).
    { destruct (exec_entry _ _ _ _ _ E Hj) as [U | [[(b & -> & _) | (p & -> & _)] _]];
        [exact U | |]; cbn [retargets] in Qj; rewrite String.eqb_refl in Qj;
        discriminate Qj. }
    destruct (IH m R Hi' Hj') as (new & Wi & Wj).
    { intros a' Ha'. apply Quiet. right. exact Ha'. }
    pose proof (exec_written_to _ _ _ i E) as Si.
    pose proof (exec_written_to _ _ _ j E) as Sj.
    rewrite Hi in Si. rewrite Hj in Sj.
    assert (Same : forall msg, takes ti msg = takes tj msg).
    { intros msg. unfold takes. rewrite En, Th, Hd. reflexivity. }
    assert (Inc : match a, _logger (impl s), Some tj with
                  | LoggerStep, Dispatching (msg :: _), Some t =>
                      if takes t msg then [snd (snd msg)] else []
                  | _, _, _ => []
                  end
                  = match a, _logger (impl s), Some ti with
                    | LoggerStep, Dispatching (msg :: _), Some t =>
                        if takes t msg then [snd (snd msg)] else []
                    | _, _, _ => []
                    end).
    { destruct a; try reflexivity.
      destruct (_logger (impl s)) as [| | [| msg lq] |]; try reflexivity.
      rewrite Same. reflexivity. }
    rewrite Inc in Sj. rewrite Si in Wi. rewrite Sj in Wj.
    rewrite <- app_assoc in Wi, Wj. eauto.
Qed.

(** X6: two registry entries with the same flag, the same threshold and
    both with (or both without) a destination are written the same lines
    in the same order, along every schedule that makes no [permitDest] or
    [threshold] call on either name. *)
Theorem same_settings_same_lines (acts : list Action) (s s' : System)
    (i j : nat) (ti tj : LogTarget) :
  run acts s = Some s' ->
  nth_error (_dests (impl s)) i = Some ti ->
  nth_error (_dests (impl s)) j = Some tj ->
  _enabled ti = _enabled tj ->
  _threshold ti = _threshold tj ->
  has_dest ti = has_dest tj ->
  (forall a, In a acts ->
             retargets (_name ti) a = false /\ retargets (_name tj) a = false) ->
  exists new,
    written_to i (trace s') = (written_to i (trace s) ++ new)%list
    /\ written_to j (trace s') = (written_to j (trace s) ++ new)%list.
Proof.
  exact (run_same_lines acts s s' i j ti tj).
Qed.

(** ** No message is made up, doubled or dropped on its way *)

Lemma push_length (e : queue_element_t) (q : priority_queue_t) :
  List.length (push e q) = S (List.length q).
Proof.
  induction q as [| x rest IH]; cbn [push]; [reflexivity |].
  destruct (element_lt e x); cbn [List.length]; [| rewrite IH]; reflexivity.
Qed.

Lemma replace_nth_length {A : Type} (k : nat) (x : A) (l : list A) :
  List.length (replace_nth k x l) = List.length l.
Proof.
  revert k. induction l as [| y rest IH]; intros k; destruct k; cbn; auto.
Qed.

Lemma remove_nth_length {A : Type} (k : nat) (x : A) (l : list A) :
  nth_error l k = Some x -> S (List.length (remove_nth k l)) = List.length l.
Proof.
  revert k. induction l as [| y rest IH]; intros k H; destruct k; cbn in *;
    try discriminate; [reflexivity |].
  rewrite (IH _ H). reflexivity.
Qed.

Lemma popped_of_app (xs ys : list Event) :
  popped_of (xs ++ ys) = (popped_of xs ++ popped_of ys)%list.
Proof.
  induction xs as [| x xs IH]; cbn [app popped_of]; [reflexivity |].
  destruct x; try exact IH. cbn [app]. rewrite IH. reflexivity.
Qed.

Lemma popped_of_write_all (k : nat) (msg : queue_element_t) (dests : list LogTarget) :
  popped_of (write_all k msg dests) = [].
Proof.
  revert k. induction dests as [| t rest IH]; intros k; cbn [write_all]; [reflexivity |].
  rewrite popped_of_app, IH. destruct (_ && _); reflexivity.
Qed.

Lemma popped_of_flush_all (k : nat) (dests : list LogTarget) :
  popped_of (flush_all k dests) = [].
Proof.
  revert k. induction dests as [| t rest IH]; intros k; cbn [flush_all]; [reflexivity |].
  rewrite popped_of_app, IH. destruct (has_dest t); reflexivity.
Qed.

(** What one action pops: the head of the worker's batch, in a worker step
    that finds the batch not empty. *)
Lemma exec_popped_of (a : Action) (s s' : System) :
  exec a s = Some s' ->
  popped_of (trace s')
  = (popped_of (trace s)
     ++ match a, _logger (impl s) with
        | LoggerStep, Dispatching (msg :: _) => [msg]
        | _, _ => []
        end)%list.
Proof.
  intros H.
  destruct (exec_events _ _ _ H) as [[T _] | [(msg & lq & -> & L & ->) | [-> ->]]];
    cbn [trace].
  - rewrite T.
    assert (N : match a, _logger (impl s) with
                | LoggerStep, Dispatching (msg :: _) => [msg]
                | _, _ => []
                end = []).
    { destruct a; try reflexivity.
      destruct (_logger (impl s)) as [| | [| msg lq] |] eqn:L; try reflexivity.
      exfalso. unfold exec, exec_logger in H. rewrite L in H.
      destruct (life s); try discriminate H; injection H as <-; cbn [trace] in T;
        apply (f_equal (@List.length Event)) in T;
        rewrite length_app in T; cbn [List.length] in T; lia. }
    rewrite N, app_nil_r. reflexivity.
  - rewrite L, popped_of_app. cbn [popped_of]. rewrite popped_of_write_all. reflexivity.
  - rewrite popped_of_app. f_equal.
    destruct (_verifCB (impl s)); [| reflexivity].
    rewrite popped_of_app, popped_of_flush_all. reflexivity.
Qed.

Lemma exec_in_flight (a : Action) (s s' : System) :
  exec a s = Some s' ->
  (in_flight s' + List.length (popped_of (trace s'))
   = in_flight s + List.length (popped_of (trace s))
     + (if is_accepted (settings_of s) a then 1 else 0))%nat.
Proof.
  intros H. rewrite (exec_popped_of _ _ _ H), length_app.
  unfold in_flight, localQueue_of, settings_of, is_accepted.
  cbn [globalThreshold].
  exec_cases H; subst; cbn [impl detached];
    unfold log_gate, set_logger, set_queue, set_requestedErrors in *;
    repeat match goal with
           | E : match ?x with _ => _ end = _ |- _ => destruct x eqn:?
           | E : Some _ = Some _ |- _ => injection E as <-
           | E : Some _ = None |- _ => discriminate E
           | E : None = Some _ |- _ => discriminate E
           end;
    cbn [_logger _queue _globalThreshold set_category set_globalThreshold set_dests
         set_log set_errorThreshold set_verifCB addDest addDest_threshold
         permitDest threshold_dest negb List.length];
    repeat match goal with E : ?x = _ |- context [?x] => rewrite E end;
    rewrite ?length_app, ?push_length, ?replace_nth_length;
    cbn [List.length negb];
    try lia.
  all: match goal with
       | E : nth_error (detached ?s) ?k = Some _ |- _ =>
           pose proof (remove_nth_length _ _ _ E)
       end; lia.
Qed.

(** X7: along every schedule, the number of messages with a detached
    thread, in the queue or in the batch of the worker, plus the number of
    messages the worker has popped, grows by exactly the number of [log]
    calls that passed the gate: no message is made up or doubled, and none
    disappears before it is popped. *)
Theorem messages_are_conserved (acts : list Action) (s s' : System) :
  run acts s = Some s' ->
  (in_flight s' + List.length (popped_of (trace s'))
   = in_flight s + List.length (popped_of (trace s))
     + accepted_calls (settings_of s) acts)%nat.
Proof.
  revert s. induction acts as [| a acts IH]; intros s R; cbn [run accepted_calls] in *.
  - injection R as <-. lia.
  - destruct (exec a s) as [m |] eqn:E; [| discriminate].
    rewrite (IH m R), (exec_in_flight _ _ _ E).
    destruct (exec_requestedErrors _ _ _ E) as [-> _]. lia.
Qed.

(** ** After the worker has left its loop *)

Lemma exec_after_exit (a : Action) (s s' : System) :
  exec a s = Some s' ->
  _logger (impl s) = Exited ->
  _logger (impl s') = Exited
  /\ forall e, In e (_queue (impl s)) -> In e (_queue (impl s')).
Proof.
  intros H X.
  exec_cases H; subst; cbn [impl];
    unfold log_gate, set_requestedErrors in *;
    repeat match goal with
           | E : match ?x with _ => _ end = _ |- _ => destruct x eqn:?
           | E : Some _ = Some _ |- _ => injection E as <-
           | E : Some _ = None |- _ => discriminate E
           | E : None = Some _ |- _ => discriminate E
           end;
    unfold set_logger, set_queue, set_category, set_globalThreshold, set_dests,
           set_log, set_errorThreshold, set_verifCB, addDest, addDest_threshold,
           permitDest, threshold_dest, set_dests in *;
    cbn [_logger _queue];
    try congruence;
    (split; [assumption |]); intros x Hx; try exact Hx.
  all: apply in_push; right; exact Hx.
Qed.

(** X8: once the worker has left its loop nothing is popped and nothing is
    written to any destination any more, whatever runs afterwards; a
    message that a detached thread pushes after that moment stays in the
    queue and is lost. *)
Theorem nothing_written_after_exit (acts : list Action) (s s' : System) :
  run acts s = Some s' ->
  _logger (impl s) = Exited ->
  _logger (impl s') = Exited
  /\ popped_of (trace s') = popped_of (trace s)
  /\ (forall n, written_to n (trace s') = written_to n (trace s))
  /\ (forall e, In e (_queue (impl s)) -> In e (_queue (impl s'))).
Proof.
  revert s. induction acts as [| a acts IH]; intros s R X; cbn [run] in R.
  - injection R as <-. auto.
  - destruct (exec a s) as [m |] eqn:E; [| discriminate].
    destruct (exec_after_exit _ _ _ E X) as [Xm Qm].
    destruct (IH m R Xm) as (X' & P' & W' & Q').
    split; [exact X' |]. split; [| split].
    + rewrite P', (exec_popped_of _ _ _ E), X.
      destruct a; rewrite app_nil_r; reflexivity.
    + intros n. rewrite W', (exec_written_to _ _ _ n E), X.
      destruct a; rewrite app_nil_r; reflexivity.
    + intros e He. apply Q', Qm, He.
Qed.

(** ** The order of the events of a run *)

Lemma forallb_is_work_write_all (k : nat) (msg : queue_element_t) (dests : list LogTarget) :
  forallb is_work (write_all k msg dests) = true.
Proof.
  revert k. induction dests as [| t rest IH]; intros k; cbn [write_all]; [reflexivity |].
  rewrite forallb_app, IH, andb_true_r. destruct (_ && _); reflexivity.
Qed.

(** X9: in every run from the construction of a logger, all pops and writes
    come before every [flush], every [flush] comes before the call of the
    verification callback, and that call is the last event; before the
    destructor has returned there is no [flush] and no callback call
    at all. *)
Theorem teardown_events_come_last
    (globalThreshold_ : Priority) (category_ : string)
    (acts : list Action) (s : System) :
  run acts (boot globalThreshold_ category_) = Some s ->
  exists work,
    forallb is_work work = true
    /\ trace s = (work ++ teardown_events s)%list.
Proof.
  apply (run_invariant
           (fun x => exists work, forallb is_work work = true
                                  /\ trace x = (work ++ teardown_events x)%list)).
  - clear. intros a s s' (work & W & T) E.
    assert (L : life s = Alive \/ life s = Destructing) by (eapply exec_needs_life; eauto).
    assert (T0 : trace s = work).
    { rewrite T. unfold teardown_events.
      destruct L as [-> | ->]; apply app_nil_r. }
    destruct (exec_events _ _ _ E) as [[Tr Nd] | [(msg & lq & _ & _ & ->) | [_ ->]]].
    + exists work. split; [exact W |]. rewrite Tr, T0. unfold teardown_events.
      destruct (life s'); try (rewrite app_nil_r; reflexivity). contradiction.
    + exists (work ++ Popped msg :: write_all 0 msg (_dests (impl s)))%list. split.
      * rewrite forallb_app, W. cbn [forallb is_work andb].
        apply forallb_is_work_write_all.
      * unfold teardown_events. cbn [life trace]. rewrite T0.
        destruct L as [-> | ->]; rewrite app_nil_r; reflexivity.
    + exists work. split; [exact W |].
      unfold teardown_events. cbn [life trace impl]. rewrite T0.
      destruct (_verifCB (impl s)); [| reflexivity].
      rewrite flush_all_order. reflexivity.
  - exists []. split; reflexivity.
Qed.

(** ** When a formatting thread throws *)

Lemma gmtime_r_representable (t : time_point_t) :
  representable t -> gmtime_r (Z.quot t 1000000000) <> None.
Proof.
  unfold representable, gmtime_r. intros R.
  change (2 ^ 63) with 9223372036854775808 in R.
  set (time := Z.quot t 1000000000).
  assert (B : -9223372037 <= time <= 9223372037).
  { subst time. Z.to_euclidean_division_equations. lia. }
  clearbody time. clear R t.
  set (days := time / 86400).
  assert (Bd : -106752 <= days <= 106751).
  { subst days. Z.to_euclidean_division_equations. lia. }
  clearbody days.
  set (z := days + 719468).
  set (era := z / 146097).
  set (doe := z - era * 146097).
  assert (Be : 4 <= era <= 5)
    by (subst era z; Z.to_euclidean_division_equations; lia).
  assert (Bo : 0 <= doe <= 146096)
    by (subst doe era z; Z.to_euclidean_division_equations; lia).
  clearbody doe era. clear z Bd days.
  set (yoe := (doe - doe / 1460 + doe / 36524 - doe / 146096) / 365).
  assert (By : 0 <= yoe <= 400)
    by (subst yoe; Z.to_euclidean_division_equations; lia).
  clearbody yoe. cbv zeta.
  match goal with |- (if ?c then _ else _) <> _ => assert (C : c = true) end.
  { apply andb_true_intro. unfold INT_MIN, INT_MAX.
    split; apply Z.leb_le; destruct (_ <=? 2); lia. }
  rewrite C. discriminate.
Qed.

Lemma put_Priority_named (lhs_ : Ostream) (p : Priority) :
  named p -> exists out, put_Priority lhs_ p = Ok out.
Proof.
  intros (name & H). unfold priority_names in H. cbn [In] in H.
  destruct H as [H | [H | [H | [H | [H | []]]]]]; injection H as <- _;
    eexists; reflexivity.
Qed.

Lemma put_Priority_unnamed (lhs_ : Ostream) (p : Priority) :
  ~ named p -> put_Priority lhs_ p = Throw (runtime_error "unknown priority!").
Proof.
  intros N. destruct (put_Priority lhs_ p) as [out | e] eqn:P.
  - exfalso. apply N. apply put_Priority_Ok in P. destruct P as (name & H & _).
    exists name. exact H.
  - revert P. destruct p as [v]. unfold put_Priority. cbn [underlying].
    destruct v as [| q | q]; try congruence.
    destruct q as [[[|q|]|[q|q|]|]|[[q|q|]|[q|q|]|]|]; congruence.
Qed.

(** X10: for a time stamp that a [time_point] can hold, formatting a line
    succeeds exactly when the priority is one of the five named
    enumerators, and otherwise throws "unknown priority!" (never "cannot
    get time for logging!"). *)
Theorem format_succeeds_iff_named (category : string) (c : LogCall) :
  representable (now c) ->
  ((exists line, format category c = Ok line) <-> named (pri_ c))
  /\ (~ named (pri_ c) ->
      format category c = Throw (runtime_error "unknown priority!")).
Proof.
  intros R. pose proof (gmtime_r_representable _ R) as G.
  assert (U : ~ named (pri_ c) ->
              format category c = Throw (runtime_error "unknown priority!")).
  { intros N. unfold format.
    destruct (gmtime_r (Z.quot (now c) 1000000000)); [| contradiction].
    unfold bind. rewrite (put_Priority_unnamed _ _ N). reflexivity. }
  split; [| exact U]. split.
  - intros (line & F). destruct (format_layout _ _ _ F) as (t & name & _ & H & _).
    exists name. exact H.
  - intros N. unfold format.
    destruct (gmtime_r (Z.quot (now c) 1000000000)); [| contradiction].
    destruct (put_Priority_named
                (put_time t ++ "." ++
                 show_Z (now c - Z.quot (now c) 1000000000 * 1000 * 1000 * 1000)
                 ++ " " ++ show_Z (threadId_ c) ++ " " ++ category ++ " "
                 ++ function_ c ++ " ") _ N) as (out & P).
    unfold bind. rewrite P. eexists. reflexivity.
Qed.

(** The process terminates only in the formatting step of a detached
    thread whose [format] throws. *)
Lemma exec_terminated (a : Action) (s s' : System) :
  exec a s = Some s' ->
  life s' = Terminated ->
  exists k c e,
    a = DetachedFormat k
    /\ nth_error (detached s) k = Some (Spawned c)
    /\ format (_category (impl s)) c = Throw e.
Proof.
  intros H T. exec_cases H; subst; cbn [life] in T; try congruence;
    unfold log_gate in *;
    repeat match goal with
           | E : match ?x with _ => _ end = _ |- _ => destruct x eqn:?
           | E : Some _ = Some _ |- _ => injection E as <-
           | E : Some _ = None |- _ => discriminate E
           | E : None = Some _ |- _ => discriminate E
           end; cbn [life] in T; try congruence.
  all: do 3 eexists; split; [reflexivity |]; split; eassumption.
Qed.

(** X11: a logger that is only ever given time stamps a [time_point] can
    hold and priorities among the five named enumerators never calls
    [std::terminate]: no formatting thread throws. *)
Theorem named_priorities_never_terminate
    (globalThreshold_ : Priority) (category_ : string)
    (acts : list Action) (s : System) :
  run acts (boot globalThreshold_ category_) = Some s ->
  (forall c, In (CallLog c) acts -> representable (now c) /\ named (pri_ c)) ->
  life s <> Terminated.
Proof.
  destruct acts as [| a acts _] using rev_ind; intros R Ok T.
  - injection R as <-. discriminate T.
  - apply run_snoc in R. destruct R as (m & R & E).
    destruct (exec_terminated _ _ _ E T) as (k & c & e & -> & Hk & F).
    destruct (reachable_provenance _ _ _ _ R) as (Ps & _).
    destruct (Ps c (nth_error_In _ _ Hk)) as (before & after & x & -> & _ & _).
    destruct (Ok c) as [Rc Nc].
    { apply in_or_app. left. apply in_or_app. right. left. reflexivity. }
    pose proof (gmtime_r_representable _ Rc) as G.
    unfold format in F.
    destruct (gmtime_r (Z.quot (now c) 1000000000)); [| contradiction].
    destruct (put_Priority_named
                (put_time t ++ "." ++
                 show_Z (now c - Z.quot (now c) 1000000000 * 1000 * 1000 * 1000)
                 ++ " " ++ show_Z (threadId_ c) ++ " " ++ _category (impl m) ++ " "
                 ++ function_ c ++ " ") _ Nc) as (out & P).
    unfold bind in F. rewrite P in F. discriminate F.
Qed.

(** X12: a [log] call with a priority outside the five named enumerators
    is not turned away for that (the gate only compares it with the global
    threshold); when its detached thread formats the line, the exception
    leaves the thread, the process terminates and nothing runs any more. *)
Theorem unnamed_priority_terminates (s : System) (k : nat) (c : LogCall) :
  life s = Alive \/ life s = Destructing ->
  nth_error (detached s) k = Some (Spawned c) ->
  representable (now c) ->
  ~ named (pri_ c) ->
  exists s',
    exec (DetachedFormat k) s = Some s'
    /\ life s' = Terminated
    /\ forall a, exec a s' = None.
Proof.
  intros L Hk R N.
  assert (F : format (_category (impl s)) c = Throw (runtime_error "unknown priority!")).
  { pose proof (gmtime_r_representable _ R) as G. unfold format.
    destruct (gmtime_r (Z.quot (now c) 1000000000)); [| contradiction].
    unfold bind. rewrite (put_Priority_unnamed _ _ N). reflexivity. }
  exists (mkSystem (impl s) (detached s) Terminated (trace s)).
  split; [| split; [reflexivity |]].
  - unfold exec, exec_detached. rewrite Hk, F. destruct L as [-> | ->]; reflexivity.
  - intros a. destruct (exec a _) as [x |] eqn:E; [| reflexivity].
    apply exec_needs_life in E. cbn [life] in E. destruct E; discriminate.
Qed.

(** ** One batch *)

Lemma worker_pops_batch (localQueue : priority_queue_t) (s : System) :
  life s = Alive \/ life s = Destructing ->
  _logger (impl s) = Dispatching localQueue ->
  exists s',
    run (repeat LoggerStep (List.length localQueue)) s = Some s'
    /\ _logger (impl s') = Dispatching []
    /\ popped_of (trace s') = (popped_of (trace s) ++ localQueue)%list
    /\ _dests (impl s') = _dests (impl s).
Proof.
  revert s. induction localQueue as [| msg rest IH]; intros s L D.
  - exists s. cbn [List.length repeat run]. rewrite app_nil_r. auto.
  - cbn [List.length repeat run].
    assert (E : exec LoggerStep s
                = Some (mkSystem (set_logger (Dispatching rest) (impl s)) (detached s)
                          (life s)
                          (trace s ++ Popped msg :: write_all 0 msg (_dests (impl s))))).
    { unfold exec, exec_logger. rewrite D. destruct L as [-> | ->]; reflexivity. }
    rewrite E.
    destruct (IH (mkSystem (set_logger (Dispatching rest) (impl s)) (detached s)
                    (life s)
                    (trace s ++ Popped msg :: write_all 0 msg (_dests (impl s)))))
      as (s' & R & D' & P' & Ds'); [exact L | reflexivity |].
    exists s'. split; [exact R |]. split; [exact D' |]. split; [| exact Ds'].
    rewrite P'. cbn [trace]. rewrite popped_of_app. cbn [popped_of].
    rewrite popped_of_write_all, <- app_assoc. reflexivity.
Qed.

(** While the worker holds [_destMutex] no other thread changes the
    registry: an action of another thread that runs while the worker is in
    a batch leaves the registry and the batch as they are, and pops
    nothing. *)
Lemma exec_while_dispatching (a : Action) (s s' : System)
    (localQueue : priority_queue_t) :
  exec a s = Some s' ->
  _logger (impl s) = Dispatching localQueue ->
  a <> LoggerStep ->
  _logger (impl s') = Dispatching localQueue
  /\ _dests (impl s') = _dests (impl s)
  /\ popped_of (trace s') = popped_of (trace s).
Proof.
  intros H D N.
  assert (P : popped_of (trace s') = popped_of (trace s)).
  { rewrite (exec_popped_of _ _ _ H). destruct a; try apply app_nil_r. congruence. }
  split; [| split; [| exact P]]; clear P.
  - exec_cases H; subst; cbn [impl];
      unfold log_gate, set_requestedErrors, destMutex_free in *;
      repeat match goal with
             | E : match ?x with _ => _ end = _ |- _ => destruct x eqn:?
             | E : Some _ = Some _ |- _ => injection E as <-
             | E : Some _ = None |- _ => discriminate E
             | E : None = Some _ |- _ => discriminate E
             end;
      try congruence; cbn; congruence.
  - exec_cases H; subst; cbn [impl];
      unfold log_gate, set_requestedErrors, destMutex_free in *;
      repeat match goal with
             | E : match ?x with _ => _ end = _ |- _ => destruct x eqn:?
             | E : Some _ = Some _ |- _ => injection E as <-
             | E : Some _ = None |- _ => discriminate E
             | E : None = Some _ |- _ => discriminate E
             end;
      try congruence; reflexivity.
Qed.

(** Along any schedule in which the worker takes no more steps than its
    batch has messages, the worker stays in the batch, the registry stays
    as it is, and the messages popped are the first of the batch, in
    order. *)
Lemma run_while_dispatching (more : list Action) (s s' : System)
    (localQueue : priority_queue_t) :
  run more s = Some s' ->
  _logger (impl s) = Dispatching localQueue ->
  (worker_steps more <= List.length localQueue)%nat ->
  _logger (impl s') = Dispatching (skipn (worker_steps more) localQueue)
  /\ _dests (impl s') = _dests (impl s)
  /\ popped_of (trace s')
     = (popped_of (trace s) ++ firstn (worker_steps more) localQueue)%list.
Proof.
  revert s localQueue. induction more as [| a more IH]; intros s lq R D Le; cbn [run] in R.
  - injection R as <-. cbn [worker_steps skipn firstn]. rewrite app_nil_r. auto.
  - destruct (exec a s) as [m |] eqn:E; [| discriminate].
    assert (C : a = LoggerStep \/ a <> LoggerStep)
      by (destruct a; (left; reflexivity) || (right; discriminate)).
    destruct C as [-> | N].
    + cbn [worker_steps] in *. destruct lq as [| msg rest]; [cbn in Le; lia |].
      assert (Em : m = mkSystem (set_logger (Dispatching rest) (impl s)) (detached s)
                         (life s)
                         (trace s ++ Popped msg :: write_all 0 msg (_dests (impl s)))).
      { unfold exec, exec_logger in E. rewrite D in E.
        destruct (life s); try discriminate E; injection E as <-; reflexivity. }
      destruct (IH m rest R) as (L' & D' & P').
      { rewrite Em. reflexivity. }
      { cbn [List.length] in Le. lia. }
      cbn [skipn firstn]. split; [exact L' |]. split.
      * rewrite D', Em. reflexivity.
      * rewrite P', Em. cbn [trace]. rewrite popped_of_app. cbn [popped_of].
        rewrite popped_of_write_all, <- app_assoc. reflexivity.
    + destruct (exec_while_dispatching _ _ _ _ E D N) as (Dm & Rm & Pm).
      assert (W : worker_steps (a :: more) = worker_steps more)
        by (destruct a; try reflexivity; congruence).
      rewrite W in *.
      destruct (IH m lq R Dm Le) as (L' & D' & P').
      split; [exact L' |]. split; congruence.
Qed.

(** X13: the batch the worker has swapped out is in ascending order of time
    stamps; the worker pops all of it in that order as its next steps; and
    along every schedule, whatever the other threads do in between, as
    long as the worker has not taken more steps than the batch has
    messages, the registry is unchanged (the worker holds [_destMutex]),
    the worker is still in the batch, and what has been popped is the
    beginning of the batch, in order. *)
Theorem batch_is_popped_in_time_order
    (globalThreshold_ : Priority) (category_ : string)
    (acts : list Action) (s : System) (localQueue : priority_queue_t) :
  run acts (boot globalThreshold_ category_) = Some s ->
  life s = Alive \/ life s = Destructing ->
  _logger (impl s) = Dispatching localQueue ->
  time_sorted localQueue
  /\ (exists s',
        run (repeat LoggerStep (List.length localQueue)) s = Some s'
        /\ popped_of (trace s') = (popped_of (trace s) ++ localQueue)%list
        /\ _dests (impl s') = _dests (impl s))
  /\ (forall (more : list Action) (s' : System),
        run more s = Some s' ->
        (worker_steps more <= List.length localQueue)%nat ->
        _dests (impl s') = _dests (impl s)
        /\ _logger (impl s') = Dispatching (skipn (worker_steps more) localQueue)
        /\ popped_of (trace s')
           = (popped_of (trace s) ++ firstn (worker_steps more) localQueue)%list).
Proof.
  intros R L D. split; [| split].
  - destruct (reachable_time_sorted _ _ _ _ R) as [_ S].
    unfold localQueue_of in S. rewrite D in S. exact S.
  - destruct (worker_pops_batch localQueue s L D) as (s' & R' & _ & P & Ds).
    exists s'. auto.
  - intros more s' R' Le.
    destruct (run_while_dispatching more s s' localQueue R' D Le) as (L' & D' & P').
    auto.
Qed.

(** ** The error destination and the requested-error count *)

Lemma filter_push_length (f : queue_element_t -> bool) (e : queue_element_t)
    (q : priority_queue_t) :
  List.length (filter f (push e q))
  = ((if f e then 1 else 0) + List.length (filter f q))%nat.
Proof.
  induction q as [| x rest IH]; cbn [push filter].
  - destruct (f e); reflexivity.
  - destruct (element_lt e x); cbn [filter].
    + destruct (f e); reflexivity.
    + destruct (f x); cbn [List.length]; rewrite IH; lia.
Qed.

Lemma filter_replace_nth_length {A : Type} (f : A -> bool) (k : nat) (x y : A)
    (l : list A) :
  nth_error l k = Some x -> f y = f x ->
  List.length (filter f (replace_nth k y l)) = List.length (filter f l).
Proof.
  intros H E. revert k H. induction l as [| z rest IH]; intros k H; destruct k;
    cbn in *; try discriminate.
  - injection H as ->. rewrite E. destruct (f x); reflexivity.
  - destruct (f z); cbn [List.length]; rewrite (IH _ H); reflexivity.
Qed.

Lemma filter_remove_nth_length {A : Type} (f : A -> bool) (k : nat) (x : A) (l : list A) :
  nth_error l k = Some x ->
  (List.length (filter f (remove_nth k l)) + (if f x then 1 else 0)
   = List.length (filter f l))%nat.
Proof.
  revert k. induction l as [| z rest IH]; intros k H; destruct k; cbn in *;
    try discriminate.
  - injection H as ->. destruct (f x); cbn [List.length]; lia.
  - specialize (IH _ H). destruct (f z); cbn [List.length]; lia.
Qed.

(** One action, seen from an enabled entry with a destination whose
    threshold is the error threshold, while a callback is registered: the
    lines written to the entry plus the messages still on their way from
    that threshold up grow by one exactly when the action is a [log] call
    that the counter counts. *)
Lemma exec_error_lines (a : Action) (s s' : System) (n : nat) (t : LogTarget) :
  exec a s = Some s' ->
  nth_error (_dests (impl s)) n = Some t ->
  _enabled t = true ->
  has_dest t = true ->
  _threshold t = _errorThreshold (impl s) ->
  _verifCB (impl s) <> None ->
  resets_counting a = false ->
  (List.length (written_to n (trace s')) + in_flight_from (_threshold t) s'
   = List.length (written_to n (trace s)) + in_flight_from (_threshold t) s
     + (if is_requested_error (settings_of s) a then 1 else 0))%nat.
Proof.
  intros H Hn En Hd Th Cb Rs.
  rewrite (exec_written_to _ _ _ n H), Hn, length_app.
  unfold in_flight_from, localQueue_of, settings_of, is_requested_error, takes.
  cbn [globalThreshold errorThreshold callback].
  rewrite En, Hd, <- Th. symmetry in Th.
  set (keep := fun e : queue_element_t => negb (pri_lt (fst (snd e)) (_threshold t))).
  set (keepd := fun d : Detached => negb (pri_lt (detached_pri d) (_threshold t))).
  destruct (_verifCB (impl s)) as [cb |] eqn:V; [clear Cb | contradiction].
  exec_cases H; subst; cbn [impl detached resets_counting] in *; try discriminate Rs;
    unfold log_gate, set_logger, set_queue, set_requestedErrors in *;
    repeat match goal with
           | E : match ?x with _ => _ end = _ |- _ => destruct x eqn:?
           | E : Some _ = Some _ |- _ => injection E as <-
           | E : Some _ = None |- _ => discriminate E
           | E : None = Some _ |- _ => discriminate E
           end;
    cbn [_logger _queue _globalThreshold set_category set_globalThreshold set_dests
         set_log set_errorThreshold set_verifCB addDest addDest_threshold
         permitDest threshold_dest negb List.length];
    repeat match goal with E : ?x = _ |- context [?x] => rewrite E end;
    rewrite ?filter_app, ?length_app, ?filter_push_length, ?andb_true_r;
    cbn [filter List.length andb negb];
    try lia.
  all: try match goal with
       | E : nth_error (detached ?s) ?k = Some (Formatted ?e) |- _ =>
           pose proof (filter_remove_nth_length keepd _ _ _ E) as Rm;
           subst keep keepd; cbv beta in Rm |- *; cbn [detached_pri] in Rm;
           revert Rm;
           destruct (negb (pri_lt (fst (snd e)) (_threshold t))); intros Rm;
           unfold priority_queue_t, queue_element_t, time_point_t in *; lia
       end.
  all: try match goal with
       | E : nth_error (detached ?s) ?k = Some (Spawned ?c) |- _ =>
           rewrite (filter_replace_nth_length keepd _ _ _ _ E) by reflexivity; lia
       end.
  all: try (subst keep keepd; cbv beta; cbn [detached_pri fst snd];
            repeat match goal with
                   | E : context [_errorThreshold (impl ?s)] |- _ => rewrite Th in E
                   end;
            repeat match goal with
                   | E : negb ?b = _ |- context [negb ?b] => rewrite E
                   | E : ?b = _ |- context [negb ?b] => rewrite E
                   end;
            cbn [negb andb List.length]; lia).
  all: try (subst keep keepd; cbv beta; cbn [detached_pri fst snd];
            match goal with
            | |- context [negb ?b] => destruct b; cbn [negb andb List.length]; lia
            end).
Qed.

(** X14: take an enabled entry with a destination whose threshold is the
    error threshold, while a verification callback is registered, and a
    schedule that sets neither the error threshold nor the callback and
    makes no [permitDest] or [threshold] call on the name of the entry.
    Then the lines written to the entry, plus the messages of that
    priority or higher still on their way, grow by exactly the number of
    [log] calls the requested-error counter counts: the entry never gets
    more lines than were requested, and gets as many once nothing is on
    its way. *)
Theorem error_lines_follow_requested_errors (acts : list Action) (s s' : System)
    (n : nat) (t : LogTarget) :
  run acts s = Some s' ->
  nth_error (_dests (impl s)) n = Some t ->
  _enabled t = true ->
  has_dest t = true ->
  _threshold t = _errorThreshold (impl s) ->
  _verifCB (impl s) <> None ->
  (forall a, In a acts -> resets_counting a = false /\ retargets (_name t) a = false) ->
  (List.length (written_to n (trace s')) + in_flight_from (_threshold t) s'
   = List.length (written_to n (trace s)) + in_flight_from (_threshold t) s
     + requested_errors (settings_of s) acts)%nat.
Proof.
  intros R Hn En Hd. revert s R Hn.
  induction acts as [| a acts IH]; intros s R Hn Th Cb Quiet;
    cbn [run requested_errors] in *.
  - injection R as <-. lia.
  - destruct (exec a s) as [m |] eqn:E; [| discriminate].
    destruct (Quiet a (or_introl eq_refl)) as [Rs Rt].
    pose proof (exec_error_lines _ _ _ _ _ E Hn En Hd Th Cb Rs) as Step.
    destruct (exec_requestedErrors _ _ _ E) as [Sm _].
    assert (Hn' : nth_error (_dests (impl m)) n = Some t).
    { destruct (exec_entry _ _ _ _ _ E Hn) as [U | [[(b & -> & _) | (p & -> & _)] _]];
        [exact U | |]; cbn [retargets] in Rt; rewrite String.eqb_refl in Rt;
        discriminate Rt. }
    assert (Keep : _errorThreshold (impl m) = _errorThreshold (impl s)
                   /\ _verifCB (impl m) = _verifCB (impl s)).
    { unfold settings_of in Sm. destruct a; cbn [settings_after resets_counting] in *;
        try discriminate Rs; injection Sm as _ Se Sc; cbn in Se, Sc; auto. }
    destruct Keep as [Ke Kc].
    rewrite (IH m R Hn'), Step, Sm; [lia | congruence | congruence |].
    intros a' Ha'. apply Quiet. right. exact Ha'.
Qed.

(** ** The properties above on the scenarios *)

(** Every priority the tester can draw has a name. *)
Lemma Test_log_named (draw : Z) :
  fst priorityDist <= draw <= snd priorityDist -> named (mkPriority draw).
Proof.
  unfold priorityDist, named, priority_names, Debug, Info, Warning, Error, Critical.
  cbn [fst snd underlying __Size]. intros B.
  assert (C : draw = 0 \/ draw = 1 \/ draw = 2 \/ draw = 3 \/ draw = 4) by lia.
  destruct C as [-> | [-> | [-> | [-> | ->]]]]; eexists; cbn [In]; eauto 6.
Qed.

Lemma registry_entries_stay_witness :
  exists t', nth_error (_dests (impl tester_reconfigured)) 2 = Some t'
             /\ _name t' = "errors.txt" /\ _dest t' = Some (FileDest "errors.txt").
Proof.
  apply (registry_entries_stay reconfigure tester_ready tester_reconfigured 2
           (mkLogTarget "errors.txt" (Some (FileDest "errors.txt")) Error true)).
  - vm_compute. reflexivity.
  - vm_compute. reflexivity.
Defined.

Lemma shadowed_entry_is_frozen_witness :
  nth_error (_dests (impl twice_registered_after)) 1
  = Some (mkLogTarget "a" (Some StdErrDest) Error true).
Proof.
  apply (shadowed_entry_is_frozen calls_on_a twice_registered twice_registered_after
           0 1 (mkLogTarget "a" (Some StdOutDest) Info true)
           (mkLogTarget "a" (Some StdErrDest) Error true)).
  - vm_compute. reflexivity.
  - lia.
  - vm_compute. reflexivity.
  - vm_compute. reflexivity.
  - reflexivity.
Defined.

Lemma same_settings_same_lines_witness :
  exists new,
    written_to 0 (trace tester_done) = (written_to 0 (trace tester_ready) ++ new)%list
    /\ written_to 1 (trace tester_done) = (written_to 1 (trace tester_ready) ++ new)%list.
Proof.
  apply (same_settings_same_lines tester_run tester_ready tester_done 0 1
           (mkLogTarget "all_logs1.txt" (Some (FileDest "all_logs1.txt")) Debug true)
           (mkLogTarget "all_logs2.txt" (Some (FileDest "all_logs2.txt")) Debug true)).
  - vm_compute. reflexivity.
  - vm_compute. reflexivity.
  - vm_compute. reflexivity.
  - reflexivity.
  - reflexivity.
  - reflexivity.
  - intros a H. unfold tester_run in H. cbn [In] in H.
    repeat (destruct H as [<- | H]; [split; reflexivity |]). destruct H.
Defined.

Lemma messages_are_conserved_witness :
  (in_flight tester_done + List.length (popped_of (trace tester_done))
   = in_flight tester_ready + List.length (popped_of (trace tester_ready))
     + accepted_calls (settings_of tester_ready) tester_run)%nat.
Proof.
  apply (messages_are_conserved tester_run tester_ready tester_done).
  vm_compute. reflexivity.
Defined.

Lemma nothing_written_after_exit_witness :
  _logger (impl after_late_push) = Exited
  /\ popped_of (trace after_late_push) = popped_of (trace exited_early)
  /\ (forall n, written_to n (trace after_late_push) = written_to n (trace exited_early))
  /\ (forall e, In e (_queue (impl exited_early)) -> In e (_queue (impl after_late_push))).
Proof.
  apply (nothing_written_after_exit late_push exited_early after_late_push).
  - vm_compute. reflexivity.
  - vm_compute. reflexivity.
Defined.

Lemma teardown_events_come_last_witness :
  exists work,
    forallb is_work work = true
    /\ trace tester_done = (work ++ teardown_events tester_done)%list.
Proof.
  apply (teardown_events_come_last Info "global" (Test_ctor 1 Error ++ tester_run)).
  vm_compute. reflexivity.
Defined.

Lemma format_succeeds_iff_named_witness :
  ((exists line, format "debugger" hello = Ok line) <-> named (pri_ hello))
  /\ (~ named (pri_ hello) ->
      format "debugger" hello = Throw (runtime_error "unknown priority!")).
Proof.
  apply (format_succeeds_iff_named "debugger" hello).
  unfold representable. cbn. lia.
Defined.

Lemma named_priorities_never_terminate_witness :
  life tester_done <> Terminated.
Proof.
  apply (named_priorities_never_terminate Info "global"
           (Test_ctor 1 Error ++ tester_run) tester_done).
  - vm_compute. reflexivity.
  - intros c H. unfold Test_ctor, tester_run in H. cbn [app In] in H.
    repeat (destruct H as [H | H]; [try discriminate H |]); [| | | destruct H];
      unfold Test_log, MRLogL in H; injection H as <-; cbn [now pri_];
      (split; [unfold representable; cbn; lia |]);
      apply Test_log_named; unfold priorityDist; cbn; lia.
Defined.

Lemma unnamed_priority_terminates_witness :
  exists s',
    exec (DetachedFormat 0) with_unnamed_priority = Some s'
    /\ life s' = Terminated
    /\ forall a, exec a s' = None.
Proof.
  apply (unnamed_priority_terminates with_unnamed_priority 0 sized).
  - left. reflexivity.
  - reflexivity.
  - unfold representable. cbn. lia.
  - intros (name & H). unfold priority_names in H. cbn [In] in H.
    repeat (destruct H as [H | H]; [discriminate H |]). destruct H.
Defined.

Lemma batch_is_popped_in_time_order_witness :
  time_sorted (localQueue_of tester_in_batch)
  /\ (exists s',
        run (repeat LoggerStep 2) tester_in_batch = Some s'
        /\ popped_of (trace s')
           = (popped_of (trace tester_in_batch) ++ localQueue_of tester_in_batch)%list
        /\ _dests (impl s') = _dests (impl tester_in_batch))
  /\ (_dests (impl tester_mid_batch) = _dests (impl tester_in_batch)
      /\ _logger (impl tester_mid_batch)
         = Dispatching (skipn (worker_steps during_batch) (localQueue_of tester_in_batch))
      /\ popped_of (trace tester_mid_batch)
         = (popped_of (trace tester_in_batch)
            ++ firstn (worker_steps during_batch) (localQueue_of tester_in_batch))%list).
Proof.
  destruct (batch_is_popped_in_time_order Info "global" tester_first_batch tester_in_batch
              (localQueue_of tester_in_batch)) as (Sorted & Alone & Any).
  - vm_compute. reflexivity.
  - left. reflexivity.
  - reflexivity.
  - split; [exact Sorted | split; [exact Alone |]].
    apply (Any during_batch tester_mid_batch).
    + vm_compute. reflexivity.
    + vm_compute. lia.
Defined.

Lemma error_lines_follow_requested_errors_witness :
  (List.length (written_to 2 (trace tester_done)) + in_flight_from Error tester_done
   = List.length (written_to 2 (trace tester_ready)) + in_flight_from Error tester_ready
     + requested_errors (settings_of tester_ready) tester_run)%nat.
Proof.
  apply (error_lines_follow_requested_errors tester_run tester_ready tester_done 2
           (mkLogTarget "errors.txt" (Some (FileDest "errors.txt")) Error true)).
  - vm_compute. reflexivity.
  - vm_compute. reflexivity.
  - reflexivity.
  - reflexivity.
  - reflexivity.
  - discriminate.
  - intros a H. unfold tester_run in H. cbn [In] in H.
    repeat (destruct H as [<- | H]; [split; reflexivity |]). destruct H.
Defined.

(** ** Calls and what follows from them *)

(** X15: [logging(pri_)] tells what [log] does with a call of that
    priority: when it is true the call starts one detached thread, when it
    is false the call does nothing; in both cases the call itself writes
    nothing and leaves queue and registry alone. *)
Theorem logging_predicts_log (s : System) (c : LogCall) :
  life s = Alive ->
  exists s',
    exec (CallLog c) s = Some s'
    /\ detached s'
       = (if logging_pri (pri_ c) (impl s) then detached s ++ [Spawned c] else detached s)%list
    /\ trace s' = trace s
    /\ _queue (impl s') = _queue (impl s)
    /\ _dests (impl s') = _dests (impl s).
Proof.
  intros L. unfold exec, exec_call, log_gate, logging_pri. rewrite L.
  destruct (pri_lt (pri_ c) (_globalThreshold (impl s))); cbn [negb].
  - exists s. auto.
  - destruct (_verifCB (impl s));
      [destruct (negb (pri_lt (pri_ c) (_errorThreshold (impl s)))) |];
      eexists; (split; [reflexivity |]); cbn; auto.
Qed.

Lemma logging_predicts_log_witness :
  exists s',
    exec (CallLog note) tester_ready = Some s'
    /\ detached s'
       = (if logging_pri (pri_ note) (impl tester_ready)
          then detached tester_ready ++ [Spawned note] else detached tester_ready)%list
    /\ trace s' = trace tester_ready
    /\ _queue (impl s') = _queue (impl tester_ready)
    /\ _dests (impl s') = _dests (impl tester_ready).
Proof.
  apply (logging_predicts_log tester_ready note). reflexivity.
Defined.

Lemma nth_error_replace_nth {A : Type} (k : nat) (x y : A) (l : list A) :
  nth_error l k = Some x -> nth_error (replace_nth k y l) k = Some y.
Proof.
  revert k. induction l as [| z rest IH]; intros k H; destruct k; cbn in *;
    try discriminate; auto.
Qed.

(** X16: the category is read when the line is formatted, not when [log]
    is called: a call accepted under one category and formatted after
    [category(category_)] carries [category_]. *)
Theorem category_is_read_when_formatting
    (s : System) (c : LogCall) (category_ line : string) :
  life s = Alive ->
  pri_lt (pri_ c) (_globalThreshold (impl s)) = false ->
  format category_ c = Ok line ->
  exists s',
    run [CallLog c; CallCategory category_; DetachedFormat (List.length (detached s))] s
    = Some s'
    /\ nth_error (detached s') (List.length (detached s))
       = Some (Formatted (now c, (pri_ c, line))).
Proof.
  intros L G F.
  assert (E1 : exists i, exec (CallLog c) s
                         = Some (mkSystem i (detached s ++ [Spawned c]) Alive (trace s))
                         /\ set_category category_ i = set_category category_ i).
  { unfold exec, exec_call, log_gate. rewrite L, G.
    destruct (_verifCB (impl s));
      [destruct (negb (pri_lt (pri_ c) (_errorThreshold (impl s)))) |];
      eexists; split; reflexivity. }
  destruct E1 as (i & E1 & _).
  assert (N : nth_error (detached s ++ [Spawned c]) (List.length (detached s))
              = Some (Spawned c)).
  { rewrite nth_error_app2 by lia. rewrite Nat.sub_diag. reflexivity. }
  cbn [run]. rewrite E1.
  unfold exec at 1, exec_call, with_impl. cbn [life impl detached trace].
  unfold exec, exec_detached. cbn [life impl detached trace _category set_category].
  rewrite N, F.
  eexists. split; [reflexivity |]. cbn [detached].
  apply (nth_error_replace_nth _ _ _ _ N).
Qed.

Lemma category_is_read_when_formatting_witness :
  exists s',
    run [CallLog hello; CallCategory "debugger"; DetachedFormat 0] (boot Debug "global")
    = Some s'
    /\ nth_error (detached s') 0
       = Some (Formatted
                 (now hello,
                  (pri_ hello,
                   "Jan  1 00:00:01.500000042 3 debugger main Debug: hello (t.cpp:16)"
                   ++ newline))).
Proof.
  apply (category_is_read_when_formatting (boot Debug "global") hello "debugger").
  - reflexivity.
  - reflexivity.
  - vm_compute. reflexivity.
Defined.

(** X17: a disabled entry is written nothing, along every schedule that
    does not enable its name again ([permitDest(name, true)]); other
    calls, a [threshold] call on its name included, do not bring it back. *)
Theorem disabled_destination_gets_nothing (acts : list Action) (s s' : System)
    (n : nat) (t : LogTarget) :
  run acts s = Some s' ->
  nth_error (_dests (impl s)) n = Some t ->
  _enabled t = false ->
  (forall a, In a acts -> enables (_name t) a = false) ->
  written_to n (trace s') = written_to n (trace s).
Proof.
  intros R Hn En Quiet.
  assert (N0 : _name t = _name t) by reflexivity.
  revert s R Hn N0 En. generalize t at 1 2 4 as t0.
  induction acts as [| a acts IH]; intros t0 s R Hn N0 E0; cbn [run] in R.
  - injection R as <-. reflexivity.
  - destruct (exec a s) as [m |] eqn:E; [| discriminate].
    assert (Qa : enables (_name t) a = false) by (apply Quiet; left; reflexivity).
    assert (Hm : exists t1, nth_error (_dests (impl m)) n = Some t1
                            /\ _name t1 = _name t /\ _enabled t1 = false).
    { destruct (exec_entry _ _ _ _ _ E Hn) as [U | [[(b & -> & U) | (p & -> & U)] _]].
      - eauto.
      - exists (with_enabled b t0). split; [exact U |]. split; [exact N0 |].
        cbn [enables] in Qa. rewrite N0, String.eqb_refl in Qa.
        destruct b; [discriminate Qa | reflexivity].
      - exists (with_threshold p t0). auto. }
    destruct Hm as (t1 & Hm & N1 & E1).
    rewrite (IH (fun a' Ha' => Quiet a' (or_intror Ha')) t1 m R Hm N1 E1).
    rewrite (exec_written_to _ _ _ n E), Hn. unfold takes. rewrite E0.
    destruct a; try apply app_nil_r.
    destruct (_logger (impl s)) as [| | [| msg lq] |]; apply app_nil_r.
Qed.

Lemma disabled_destination_gets_nothing_witness :
  written_to 2 (trace tester_reconfigured_done) = written_to 2 (trace tester_reconfigured)
  /\ written_to 0 (trace tester_reconfigured_done)
     = ["Jan  1 00:00:00.400 11 tester operator() Critical: 3: Let's log some random text: g (Tester.cpp:155)"
        ++ newline].
Proof.
  split; [| vm_compute; reflexivity].
  apply (disabled_destination_gets_nothing critical_run tester_reconfigured
           tester_reconfigured_done 2
           (mkLogTarget "errors.txt" (Some (FileDest "errors.txt")) Error false)).
  - vm_compute. reflexivity.
  - vm_compute. reflexivity.
  - reflexivity.
  - intros a H. unfold critical_run in H. cbn [In] in H.
    repeat (destruct H as [<- | H]; [reflexivity |]). destruct H.
Defined.

(** ** The check of the tester *)

Lemma Test_compare_same (l : list string) :
  Test_compare l l = (List.length l, List.length l).
Proof.
  induction l as [| x rest IH]; cbn [Test_compare List.length]; [reflexivity |].
  rewrite IH, String.eqb_refl. reflexivity.
Qed.

(** X18: after the set-up of [Test::Test], along every schedule that makes
    no [permitDest] or [threshold] call on the two names, the same
    characters have been streamed into the destinations registered for
    all_logs1.txt and all_logs2.txt; so whenever the two files hold what
    was streamed into these two destinations ([disk] gives what reading a
    file by name yields: no other stream was opened on either file, the
    streams stayed good and were flushed), the comparison of the
    verification callback counts every line as matching. *)
Theorem tester_files_match (disk : string -> string)
    (cb : nat) (errorThreshold_ : Priority)
    (acts : list Action) (s0 s : System) :
  run (Test_ctor cb errorThreshold_) globalLogger = Some s0 ->
  run acts s0 = Some s ->
  (forall a, In a acts ->
             retargets "all_logs1.txt" a = false /\ retargets "all_logs2.txt" a = false) ->
  streamed_into 0 (trace s) = streamed_into 1 (trace s)
  /\ (disk "all_logs1.txt" = streamed_into 0 (trace s) ->
      disk "all_logs2.txt" = streamed_into 1 (trace s) ->
      Test_compare (getlines "" (disk "all_logs1.txt"))
                   (getlines "" (disk "all_logs2.txt"))
      = (List.length (getlines "" (disk "all_logs1.txt")),
         List.length (getlines "" (disk "all_logs1.txt")))).
Proof.
  intros R0 R Quiet. cbn in R0. injection R0 as <-.
  destruct (run_same_lines acts _ s 0 1
              (mkLogTarget "all_logs1.txt" (Some (FileDest "all_logs1.txt")) Debug true)
              (mkLogTarget "all_logs2.txt" (Some (FileDest "all_logs2.txt")) Debug true)
              R eq_refl eq_refl eq_refl eq_refl eq_refl Quiet) as (new & W0 & W1).
  cbn [trace written_to app] in W0, W1.
  assert (C : streamed_into 0 (trace s) = streamed_into 1 (trace s)).
  { unfold streamed_into. rewrite W0, W1. reflexivity. }
  split; [exact C |]. intros D1 D2. rewrite D2, <- C, <- D1.
  apply Test_compare_same.
Qed.

Lemma tester_files_match_witness :
  streamed_into 0 (trace tester_done) = streamed_into 1 (trace tester_done)
  /\ Test_compare (getlines "" (tester_disk "all_logs1.txt"))
                  (getlines "" (tester_disk "all_logs2.txt"))
     = (List.length (getlines "" (tester_disk "all_logs1.txt")),
        List.length (getlines "" (tester_disk "all_logs1.txt"))).
Proof.
  destruct (tester_files_match tester_disk 1 Error tester_run tester_ready tester_done)
    as (Same & Compare).
  - vm_compute. reflexivity.
  - vm_compute. reflexivity.
  - intros a H. unfold tester_run in H. cbn [In] in H.
    repeat (destruct H as [<- | H]; [split; reflexivity |]). destruct H.
  - split; [exact Same |]. apply Compare.
    + vm_compute. reflexivity.
    + vm_compute. reflexivity.
Defined.
